(** * Graphator: collection, retention and location aggregation

    A shallow embedding of the parts of the graphator sources that
    implement sensor classification ([SensorDiscoveryService.getSensorType]
    in src/app/services/database/migrate.ts), the worker's per-sensor fetch
    and collection pass (src/app/worker/index.ts), the retention delete
    ([deleteOldReadings], src/app/services/database/readingRepository.ts)
    and the location aggregator ([groupSensorsByLocation],
    src/app/utils/sensorGrouping.ts).

    Strings.  A JavaScript string is a sequence of UTF-16 code units.  The
    names and units handled here ("Büro", "°C") live in the Latin-1 range,
    so a string is modelled as a Rocq [string] whose characters are code
    units 0..255 (the character with code 176 is the degree sign, 252 is
    "ü").  Over that range [toLowerCase], [trim] and the regular
    expressions used by the code are written out exactly below.

    Numbers.  Reading values are only copied around by this code, never
    computed with; a non-NaN JS number is represented by a [Z], NaN by the
    absence of a value where the code tests [isNaN].  Dates are [Z]
    milliseconds since the epoch. *)

From Stdlib Require Import String Ascii List ZArith Bool Lia Sorted Permutation DecimalNat.
Import ListNotations.
Open Scope string_scope.
Open Scope list_scope.
Open Scope nat_scope.

(** ** JavaScript string primitives over Latin-1 code units *)

Module Js.

Definition cu (n : nat) : ascii := ascii_of_nat n.

(** a one-code-unit string *)
Definition ch (n : nat) : string := String (cu n) EmptyString.

Fixpoint length (s : string) : nat :=
  match s with EmptyString => 0 | String _ s' => S (length s') end.

(** [s.slice(n)] *)
Fixpoint drop (n : nat) (s : string) : string :=
  match n, s with
  | 0, _ => s
  | S _, EmptyString => EmptyString
  | S n', String _ s' => drop n' s'
  end.

(** [s.substring(0, n)] *)
Fixpoint take (n : nat) (s : string) : string :=
  match n, s with
  | 0, _ => EmptyString
  | S _, EmptyString => EmptyString
  | S n', String c s' => String c (take n' s')
  end.

(** [s.startsWith(pat)] *)
Fixpoint starts_with (pat s : string) : bool :=
  match pat, s with
  | EmptyString, _ => true
  | String c p', String d s' => Ascii.eqb c d && starts_with p' s'
  | String _ _, EmptyString => false
  end.

Definition occurs_at (s pat : string) (i : nat) : bool :=
  starts_with pat (drop i s).

(** [lastIndexOf] scans the start positions downwards from [s.length] *)
Fixpoint last_from (s pat : string) (i : nat) : option nat :=
  if occurs_at s pat i then Some i
  else match i with 0 => None | S k => last_from s pat k end.

(** [s.lastIndexOf(pat)], [None] standing for [-1] *)
Definition lastIndexOf (s pat : string) : option nat :=
  last_from s pat (length s).

(** [s.includes(pat)] *)
Definition includes (s pat : string) : bool :=
  existsb (occurs_at s pat) (seq 0 (S (length s))).

(** [toLowerCase] on one Latin-1 code unit: A-Z and the letters
    U+00C0..U+00DE except U+00D7 map 32 code units up *)
Definition lower_cu (c : ascii) : ascii :=
  let n := nat_of_ascii c in
  if ((65 <=? n) && (n <=? 90)) || ((192 <=? n) && (n <=? 222) && negb (n =? 215))
  then cu (n + 32) else c.

Fixpoint toLowerCase (s : string) : string :=
  match s with
  | EmptyString => EmptyString
  | String c s' => String (lower_cu c) (toLowerCase s')
  end.

(** the WhiteSpace and LineTerminator code units of the Latin-1 range *)
Definition is_ws (c : ascii) : bool :=
  let n := nat_of_ascii c in
  ((9 <=? n) && (n <=? 13)) || (n =? 32) || (n =? 160).

Fixpoint trim_start (s : string) : string :=
  match s with
  | EmptyString => EmptyString
  | String c s' => if is_ws c then trim_start s' else s
  end.

Fixpoint rev_str (s : string) (acc : string) : string :=
  match s with
  | EmptyString => acc
  | String c s' => rev_str s' (String c acc)
  end.

(** [s.trim()] *)
Definition trim (s : string) : string :=
  rev_str (trim_start (rev_str (trim_start s) EmptyString)) EmptyString.

(** ** Regular expressions with the [i] flag (no [u] flag)

    Without the [u] flag, Canonicalize never maps a code unit >= 128 to one
    below 128, so a pattern made of ASCII letters matches exactly the ASCII
    case variants. *)

Definition upper_ascii (c : ascii) : ascii :=
  let n := nat_of_ascii c in
  if (97 <=? n) && (n <=? 122) then cu (n - 32) else c.

Definition ci_eq (c d : ascii) : bool := Ascii.eqb (upper_ascii c) (upper_ascii d).

Fixpoint ci_starts_with (pat s : string) : bool :=
  match pat, s with
  | EmptyString, _ => true
  | String c p', String d s' => ci_eq c d && ci_starts_with p' s'
  | String _ _, EmptyString => false
  end.

Definition ci_at (s pat : string) (i : nat) : bool := ci_starts_with pat (drop i s).

Definition ci_includes (s pat : string) : bool :=
  existsb (ci_at s pat) (seq 0 (S (length s))).

(** \w : [A-Za-z0-9_] *)
Definition is_word (c : ascii) : bool :=
  let n := nat_of_ascii c in
  ((48 <=? n) && (n <=? 57)) || ((65 <=? n) && (n <=? 90))
  || (n =? 95) || ((97 <=? n) && (n <=? 122)).

Definition word_at (s : string) (i : nat) : bool :=
  match get i s with Some c => is_word c | None => false end.

(** \b between positions [i-1] and [i] *)
Definition boundary (s : string) (i : nat) : bool :=
  xorb (match i with 0 => false | S k => word_at s k end) (word_at s i).

(** . : any code unit except the line terminators LF and CR *)
Definition is_line_terminator (c : ascii) : bool :=
  let n := nat_of_ascii c in (n =? 10) || (n =? 13).

(** no line terminator at positions [i .. j-1] *)
Definition dots (s : string) (i j : nat) : bool :=
  forallb (fun k => match get k s with
                    | Some c => negb (is_line_terminator c)
                    | None => false end) (seq i (j - i)).

End Js.

Import Js.

(** ** Data model (src/app/types/sensor.ts) *)

Inductive SensorType := temperature | humidity | both.
Inductive SensorStatus := online | offline | error.

Definition status_eqb (a b : SensorStatus) : bool :=
  match a, b with
  | online, online | offline, offline | error, error => true
  | _, _ => false
  end.

Module Sensor.
Record t := mk {
  id : string;
  friendlyName : string;
  entityId : string;
  type : SensorType;
  unit : string;
  lastSeen : Z;
  status : SensorStatus
}.
End Sensor.

Module SensorReading.
Record t := mk {
  sensorId : string;
  timestamp : Z;
  temperature : option Z;
  humidity : option Z
}.
End SensorReading.

(** ** Location aggregator (src/app/utils/sensorGrouping.ts) *)

Module SensorGroup.
Record t := mk {
  location : string;
  sensorIds : list string;
  temperature : option Z;
  humidity : option Z;
  battery : option Z;
  lastSeen : Z;
  status : SensorStatus
}.
End SensorGroup.

(** "Büro" with the Latin-1 code unit U+00FC *)
Definition Buero : string := ("B" ++ ch 252 ++ "ro")%string.

Definition suffixes : list string :=
  ["Temperature"; "temperature"; "Humidity"; "humidity"; "Battery"; "battery"; "power"].

(** the [for (const suffix of suffixes)] loop of [extractLocation] *)
Fixpoint extract_loop (friendlyName : string) (sfx : list string) : string :=
  match sfx with
  | [] => trim friendlyName
  | suffix :: rest =>
      match lastIndexOf friendlyName (" " ++ suffix)%string with
      | Some index => trim (take index friendlyName)
      | None => extract_loop friendlyName rest
      end
  end.

Definition extractLocation (friendlyName : string) : string :=
  extract_loop friendlyName suffixes.

(** [/\bof\b.*\b(sweden|china|germany)\b/i] matches at start position [p] *)
Definition of_country_at (s : string) (p : nat) : bool :=
  boundary s p && ci_at s "of" p && boundary s (p + 2) &&
  existsb (fun q =>
             dots s (p + 2) q && boundary s q &&
             existsb (fun c => ci_at s c q && boundary s (q + length c))
                     ["sweden"; "china"; "germany"])
          (seq (p + 2) (S (length s - (p + 2)))).

Definition of_country (s : string) : bool :=
  existsb (of_country_at s) (seq 0 (S (length s))).

(** the four [devicePatterns], tried with [some] *)
Definition isDeviceName (location : string) : bool :=
  ci_starts_with "IKEA" location
  || ci_includes location "dimmer"
  || ci_includes location "sensor"
  || of_country location.

Inductive DataType := DTtemperature | DThumidity | DTbattery.

Definition getSensorDataType (friendlyName : string) : option DataType :=
  let lower := toLowerCase friendlyName in
  if includes lower "temperature" then Some DTtemperature
  else if includes lower "humidity" then Some DThumidity
  else if includes lower "battery" || includes lower "power" then Some DTbattery
  else None.

(** [latestReadings[sensor.id]] on a plain object [Record<string, SensorReading>]:
    an own property, else a member inherited from [Object.prototype] (a
    truthy function without [temperature]/[humidity]), else [undefined]. *)
Inductive JsLookup := Undef | Own (r : SensorReading.t) | Inherited.

Definition object_prototype_keys : list string :=
  ["constructor"; "__proto__"; "toString"; "toLocaleString"; "valueOf";
   "hasOwnProperty"; "isPrototypeOf"; "propertyIsEnumerable";
   "__defineGetter__"; "__defineSetter__"; "__lookupGetter__"; "__lookupSetter__"].

Definition LatestReadings := list (string * SensorReading.t).

Definition record_get (m : LatestReadings) (k : string) : JsLookup :=
  match find (fun p => String.eqb (fst p) k) m with
  | Some (_, r) => Own r
  | None => if existsb (String.eqb k) object_prototype_keys then Inherited else Undef
  end.

Definition read_temperature (v : JsLookup) : option Z :=
  match v with Own r => SensorReading.temperature r | _ => None end.

Definition read_humidity (v : JsLookup) : option Z :=
  match v with Own r => SensorReading.humidity r | _ => None end.

Definition truthy (v : JsLookup) : bool :=
  match v with Undef => false | _ => true end.

(** the display value of kind [k] that a reading contributes: battery
    values are read from the humidity field *)
Definition value_of (k : DataType) (v : JsLookup) : option Z :=
  match k with
  | DTtemperature => read_temperature v
  | DThumidity | DTbattery => read_humidity v
  end.

Definition group_value (k : DataType) (g : SensorGroup.t) : option Z :=
  match k with
  | DTtemperature => SensorGroup.temperature g
  | DThumidity => SensorGroup.humidity g
  | DTbattery => SensorGroup.battery g
  end.

(** [groups : Map<string, SensorGroup>], kept in insertion order *)
Definition groups_get (groups : list SensorGroup.t) (k : string) : option SensorGroup.t :=
  find (fun g => String.eqb (SensorGroup.location g) k) groups.

(** the group objects are shared with the map: mutating [group] updates
    the map's entry for its key in place *)
Definition groups_update (groups : list SensorGroup.t) (k : string) (g : SensorGroup.t)
  : list SensorGroup.t :=
  map (fun g' => if String.eqb (SensorGroup.location g') k then g else g') groups.

Definition new_group (location : string) (sensor : Sensor.t) : SensorGroup.t :=
  SensorGroup.mk location [] None None None (Sensor.lastSeen sensor) (Sensor.status sensor).

(** the loop body from [group.sensorIds.push(sensor.id)] to the end *)
Definition update_group (latestReadings : LatestReadings) (sensor : Sensor.t)
  (group : SensorGroup.t) : SensorGroup.t :=
  let dataType := getSensorDataType (Sensor.friendlyName sensor) in
  let sensorIds := SensorGroup.sensorIds group ++ [Sensor.id sensor] in
  let lastSeen :=
    if Z.ltb (SensorGroup.lastSeen group) (Sensor.lastSeen sensor)
    then Sensor.lastSeen sensor else SensorGroup.lastSeen group in
  let status :=
    match Sensor.status sensor with
    | error => error
    | offline => if status_eqb (SensorGroup.status group) error then error else offline
    | online => SensorGroup.status group
    end in
  let reading := record_get latestReadings (Sensor.id sensor) in
  let t := SensorGroup.temperature group in
  let h := SensorGroup.humidity group in
  let b := SensorGroup.battery group in
  let '(t, h, b) :=
    if truthy reading then
      match dataType with
      | Some DTtemperature => (read_temperature reading, h, b)
      | Some DThumidity => (t, read_humidity reading, b)
      | Some DTbattery => (t, h, read_humidity reading)
      | None => (t, h, b)
      end
    else (t, h, b) in
  SensorGroup.mk (SensorGroup.location group) sensorIds t h b lastSeen status.

(** one iteration of [for (const sensor of sensors)] *)
Definition group_step (latestReadings : LatestReadings) (groups : list SensorGroup.t)
  (sensor : Sensor.t) : list SensorGroup.t :=
  let location := extractLocation (Sensor.friendlyName sensor) in
  if isDeviceName location then groups
  else
    let '(group, groups) :=
      match groups_get groups location with
      | Some g => (g, groups)
      | None => let g := new_group location sensor in (g, groups ++ [g])
      end in
    groups_update groups location (update_group latestReadings sensor group).

Definition group_loop (latestReadings : LatestReadings) (sensors : list Sensor.t)
  : list SensorGroup.t :=
  fold_left (group_step latestReadings) sensors [].

Section Aggregator.

(** [String.prototype.localeCompare]: its order is the runtime's locale
    collation, which the sources do not fix. *)
Variable localeCompare : string -> string -> Z.

(** [Array.prototype.sort] with the comparator
    [(a, b) => a.location.localeCompare(b.location)].  The sort is stable
    (ES2019), and for a consistent comparator every stable sort returns the
    same list, so a stable insertion sort stands for the engine's. *)
Fixpoint insert_by (x : SensorGroup.t) (l : list SensorGroup.t) : list SensorGroup.t :=
  match l with
  | [] => [x]
  | y :: l' =>
      if Z.ltb 0 (localeCompare (SensorGroup.location y) (SensorGroup.location x))
      then x :: l else y :: insert_by x l'
  end.

Definition sort_groups (l : list SensorGroup.t) : list SensorGroup.t :=
  fold_left (fun acc x => insert_by x acc) l [].

Definition groupSensorsByLocation (sensors : list Sensor.t)
  (latestReadings : LatestReadings) : list SensorGroup.t :=
  sort_groups (group_loop latestReadings sensors).

End Aggregator.

Definition ikea_name : string := "IKEA of Sweden RODRET Dimmer Battery".

(** ** Sensor classifier (SensorDiscoveryService.getSensorType, src/app/services/database/migrate.ts) *)

Module HomeAssistantState.
Record t := mk {
  entity_id : string;
  state : string;
  friendly_name : option string;
  unit_of_measurement : option string;
  device_class : option string;
  last_changed : string;
  last_updated : string
}.
End HomeAssistantState.

(** [x === lit] for an optional string attribute *)
Definition opt_eqb (x : option string) (lit : string) : bool :=
  match x with Some v => String.eqb v lit | None => false end.

(** the degree sign U+00B0 *)
Definition degree : string := ch 176.

Definition getSensorType (state : HomeAssistantState.t) : option SensorType :=
  let deviceClass := HomeAssistantState.device_class state in
  let unit := HomeAssistantState.unit_of_measurement state in
  if opt_eqb deviceClass "temperature"
     || match unit with Some u => includes u degree | None => false end
  then Some temperature
  else if opt_eqb deviceClass "humidity" || opt_eqb unit "%"
  then Some humidity
  else None.

(** ** Promises *)

Inductive Promise (A : Type) : Type :=
| Resolved (a : A)
| Rejected (reason : string).
Arguments Resolved {A} a.
Arguments Rejected {A} reason.

Definition bind {A B : Type} (p : Promise A) (k : A -> Promise B) : Promise B :=
  match p with Resolved a => k a | Rejected e => Rejected e end.

(** [const x = await p; ...] *)
Notation "'await' x := p 'in' k" := (bind p (fun x => k))
  (at level 200, x name, p at level 100, k at level 200).

(** [try { body } catch { handler }] *)
Definition try_catch {A : Type} (body : Promise A) (handler : string -> A) : Promise A :=
  match body with Resolved a => Resolved a | Rejected e => Resolved (handler e) end.

(** ** Reading table and retention (src/app/services/database/readingRepository.ts) *)

(** the rows of [sensor_readings], [timestamp] being NOT NULL *)
Definition Store := list SensorReading.t.

(** [DELETE FROM sensor_readings WHERE timestamp < $1], returning [rowCount] *)
Definition deleteOldReadings (cutoffDate : Z) (table : Store) : Store * nat :=
  let kept := filter (fun r => negb (Z.ltb (SensorReading.timestamp r) cutoffDate)) table in
  (kept, List.length table - List.length kept).

(** ** Worker collection pass (src/app/worker/index.ts) *)

Section Worker.

(** [client.getSensorState(entityId)]: the HTTP call, which may reject *)
Variable getSensorState : string -> Promise HomeAssistantState.t.
(** [parseFloat]: [None] is NaN *)
Variable parseFloat : string -> option Z.
(** [new Date(state.last_updated)] *)
Variable newDate : string -> Z.
(** whether the database rejects the INSERT of a reading *)
Variable insertFails : SensorReading.t -> bool.

(** [readingRepository.insertReading]: appends one row *)
Definition insertReading (table : Store) (reading : SensorReading.t) : Promise Store :=
  if insertFails reading then Rejected "insert failed" else Resolved (table ++ [reading]).

(** the [reading] object built in [fetchAndStoreSensorData] *)
Definition make_reading (sensor : Sensor.t) (state : HomeAssistantState.t) (value : Z)
  : SensorReading.t :=
  let t := match Sensor.type sensor with temperature | both => Some value | humidity => None end in
  let h := match Sensor.type sensor with humidity | both => Some value | temperature => None end in
  SensorReading.mk (Sensor.id sensor) (newDate (HomeAssistantState.last_updated state)) t h.

(** the body of the [try] block *)
Definition fetch_body (table : Store) (sensor : Sensor.t) : Promise (Store * bool) :=
  await state := getSensorState (Sensor.entityId sensor) in
  match parseFloat (HomeAssistantState.state state) with
  | None => Resolved (table, false)
  | Some value =>
      await table' := insertReading table (make_reading sensor state value) in
      Resolved (table', true)
  end.

Definition fetchAndStoreSensorData (table : Store) (sensor : Sensor.t) : Promise (Store * bool) :=
  try_catch (fetch_body table sensor) (fun _ => (table, false)).

(** [Promise.all(currentSensors.map(...))].  The fetches run concurrently;
    each one appends at most its own row, so running them one after the
    other in roster order gives the rows of any interleaving, in roster
    order. *)
Fixpoint promise_all (table : Store) (sensors : list Sensor.t) : Promise (Store * list bool) :=
  match sensors with
  | [] => Resolved (table, [])
  | sensor :: rest =>
      await r := fetchAndStoreSensorData table sensor in
      await rs := promise_all (fst r) rest in
      Resolved (fst rs, snd r :: snd rs)
  end.

(** [collectData]: the reading-count query that follows is read-only and
    wrapped in its own [try]/[catch] *)
Definition collectData (table : Store) (currentSensors : list Sensor.t)
  : Promise (Store * list bool) :=
  match currentSensors with
  | [] => Resolved (table, [])
  | _ => promise_all table currentSensors
  end.

(** the reading a sensor contributes to the pass, if its fetch, parse and
    insert all succeed *)
Definition fetch_outcome (sensor : Sensor.t) : option SensorReading.t :=
  match getSensorState (Sensor.entityId sensor) with
  | Rejected _ => None
  | Resolved state =>
      match parseFloat (HomeAssistantState.state state) with
      | None => None
      | Some value =>
          let r := make_reading sensor state value in
          if insertFails r then None else Some r
      end
  end.

Definition fetch_fails (sensor : Sensor.t) : Prop :=
  (exists e, getSensorState (Sensor.entityId sensor) = Rejected e)
  \/ (exists state, getSensorState (Sensor.entityId sensor) = Resolved state
                    /\ parseFloat (HomeAssistantState.state state) = None).

End Worker.

(** ** Specification-side notions *)

(** status precedence as the spec states it *)
Definition status_by_precedence (sts : list SensorStatus) : SensorStatus :=
  if existsb (status_eqb error) sts then error
  else if existsb (status_eqb offline) sts then offline
  else online.

(** the sensors that the aggregator merges into the group named [loc] *)
Definition member_of (loc : string) (s : Sensor.t) : bool :=
  let l := extractLocation (Sensor.friendlyName s) in
  negb (isDeviceName l) && String.eqb l loc.

Definition members (sensors : list Sensor.t) (loc : string) : list Sensor.t :=
  filter (member_of loc) sensors.

Definition dt_eqb (a b : DataType) : bool :=
  match a, b with
  | DTtemperature, DTtemperature | DThumidity, DThumidity | DTbattery, DTbattery => true
  | _, _ => false
  end.

Definition has_kind (k : DataType) (s : Sensor.t) : bool :=
  match getSensorDataType (Sensor.friendlyName s) with
  | Some k' => dt_eqb k k'
  | None => false
  end.

(** the group the loop builds from the members [ms] of location [loc], in
    input order: created from the first member, then updated by every
    member, the first one included *)
Definition build_group (latestReadings : LatestReadings) (loc : string) (ms : list Sensor.t)
  : option SensorGroup.t :=
  match ms with
  | [] => None
  | m :: _ => Some (fold_left (fun g s => update_group latestReadings s g) ms (new_group loc m))
  end.

(** two temperature sensors of one location, the second one's latest
    reading carrying no temperature *)
Definition buero_temp_a : Sensor.t :=
  Sensor.mk "buero_temp_a" (Buero ++ " Temperature")%string "sensor.buero_temp_a"
    temperature (degree ++ "C")%string 0 online.

Definition buero_temp_b : Sensor.t :=
  Sensor.mk "buero_temp_b" (Buero ++ " Temperature 2")%string "sensor.buero_temp_b"
    temperature (degree ++ "C")%string 0 online.

Definition buero_readings : LatestReadings :=
  [("buero_temp_a", SensorReading.mk "buero_temp_a" 0 (Some 215%Z) None);
   ("buero_temp_b", SensorReading.mk "buero_temp_b" 0 None (Some 40%Z))].

(** the two sensors of the grouping example of the spec and the tests *)
Definition buero_temp_sensor (lastSeen : Z) (status : SensorStatus) : Sensor.t :=
  Sensor.mk "buero_temp" (Buero ++ " Temperature")%string "sensor.buero_temperature"
    temperature (degree ++ "C")%string lastSeen status.

Definition buero_hum_sensor (lastSeen : Z) (status : SensorStatus) : Sensor.t :=
  Sensor.mk "buero_hum" (Buero ++ " Humidity")%string "sensor.buero_humidity"
    humidity "%" lastSeen status.

Fixpoint space_free (s : string) : bool :=
  match s with
  | EmptyString => true
  | String c s' => negb (Ascii.eqb c " "%char) && space_free s'
  end.

Definition has_value (r : SensorReading.t) : Prop :=
  SensorReading.temperature r <> None \/ SensorReading.humidity r <> None.


Definition unit_has_degree (state : HomeAssistantState.t) : bool :=
  match HomeAssistantState.unit_of_measurement state with
  | Some u => includes u degree
  | None => false
  end.

(** a humidity-class record whose unit is degrees Celsius *)
Definition humidity_class_celsius : HomeAssistantState.t :=
  HomeAssistantState.mk "sensor.bad_humidity" "21" (Some "Bad Humidity")
    (Some (degree ++ "C")%string) (Some "humidity")
    "2025-11-09T10:00:00Z" "2025-11-09T10:00:00Z".

Definition isSome {A : Type} (o : option A) : bool :=
  match o with Some _ => true | None => false end.

Definition option_list {A : Type} (o : option A) : list A :=
  match o with Some a => [a] | None => [] end.

(** [a] sorts no later than [b] *)
Definition loc_le (localeCompare : string -> string -> Z) (a b : SensorGroup.t) : Prop :=
  (localeCompare (SensorGroup.location a) (SensorGroup.location b) <= 0)%Z.

(** a comparator meeting the requirements of [localeCompare]: by length *)
Definition compare_by_length (a b : string) : Z :=
  (Z.of_nat (Js.length a) - Z.of_nat (Js.length b))%Z.

(** the root collation of the Unicode Collation Algorithm, which ICU (and
    so Node's [localeCompare] in every locale of the Latin script) applies,
    on strings of ASCII letters: letters are compared case-blind first, and
    only on a tie does case count, lower case first.  The key is the
    primary weights, a separator below them all, then the case weights *)
Fixpoint lex_cmp (a b : list nat) : comparison :=
  match a, b with
  | [], [] => Eq
  | [], _ :: _ => Lt
  | _ :: _, [] => Gt
  | x :: a', y :: b' => match Nat.compare x y with Eq => lex_cmp a' b' | c => c end
  end.

Definition is_upper_ascii (c : ascii) : bool :=
  let n := nat_of_ascii c in (65 <=? n) && (n <=? 90).

Definition collation_key (s : string) : list nat :=
  map (fun c => S (nat_of_ascii (lower_cu c))) (list_ascii_of_string s)
  ++ 0 :: map (fun c => if is_upper_ascii c then 1 else 0) (list_ascii_of_string s).

Definition letters_collation (a b : string) : Z :=
  match lex_cmp (collation_key a) (collation_key b) with
  | Lt => (-1)%Z
  | Eq => 0%Z
  | Gt => 1%Z
  end.

(** sensors of three rooms, one named in lower case *)
Definition room_sensor (id name : string) : Sensor.t :=
  Sensor.mk id name ("sensor." ++ id) temperature "C" 100 online.

Definition room_sensors : list Sensor.t :=
  [room_sensor "zimmer_temperature" "Zimmer Temperature";
   room_sensor "bad_humidity" "bad Humidity";
   room_sensor "arbeitszimmer_temperature" "Arbeitszimmer Temperature"].

Definition room_readings : LatestReadings :=
  [("zimmer_temperature", SensorReading.mk "zimmer_temperature" 100 (Some 215%Z) None);
   ("bad_humidity", SensorReading.mk "bad_humidity" 100 None (Some 610%Z))].

(** the sensors of the device-name test: two Büro sensors and an IKEA dimmer *)
Definition ikea_sensor : Sensor.t :=
  Sensor.mk "ikea_dimmer" ikea_name "sensor.ikea_dimmer_battery" humidity "%" 5 online.

Definition example_sensors : list Sensor.t :=
  [buero_temp_sensor 10 online; buero_hum_sensor 20 error; ikea_sensor].

Definition example_readings : LatestReadings :=
  [("buero_temp", SensorReading.mk "buero_temp" 10 (Some 220%Z) None);
   ("buero_hum", SensorReading.mk "buero_hum" 20 None (Some 526%Z))].

Definition example_groups : list SensorGroup.t :=
  groupSensorsByLocation compare_by_length example_sensors example_readings.

Definition example_group : SensorGroup.t :=
  hd (new_group "" ikea_sensor) example_groups.

Definition two_temp_groups : list SensorGroup.t :=
  groupSensorsByLocation compare_by_length [buero_temp_a; buero_temp_b] buero_readings.

(** ** More string primitives *)

(** [s.indexOf(pat)], [None] standing for [-1] *)
Definition indexOf (s pat : string) : option nat :=
  find (occurs_at s pat) (seq 0 (S (length s))).

(** [s.replace(pat, rep)] with a string pattern: only the first occurrence
    is replaced, and [rep] is inserted as it is, which is what the
    replacement does when it holds no [$] *)
Definition replace (s pat rep : string) : string :=
  match indexOf s pat with
  | None => s
  | Some i => (take i s ++ rep ++ drop (i + length pat) s)%string
  end.

(** ** Sensor discovery (SensorDiscoveryService, src/app/services/database/migrate.ts) *)

Module SensorDiscovery.

(** [x || fallback] for an optional string attribute: a missing or empty
    string is falsy *)
Definition or_else (x : option string) (fallback : string) : string :=
  match x with
  | Some v => if String.eqb v "" then fallback else v
  | None => fallback
  end.

Section Discovery.

(** [this.client.getAllStates()] *)
Variable getAllStates : Promise (list HomeAssistantState.t).
(** [new Date(state.last_updated)] *)
Variable newDate : string -> Z.

Definition mapStateToSensor (state : HomeAssistantState.t) : option Sensor.t :=
  match getSensorType state with
  | None => None
  | Some type =>
      let entity_id := HomeAssistantState.entity_id state in
      Some (Sensor.mk (replace entity_id "sensor." "")
                      (or_else (HomeAssistantState.friendly_name state) entity_id)
                      entity_id type
                      (or_else (HomeAssistantState.unit_of_measurement state) "")
                      (newDate (HomeAssistantState.last_updated state))
                      online)
  end.

(** the [catch] block logs the error and rethrows it *)
Definition discoverSensors : Promise (list Sensor.t) :=
  await states := getAllStates in
  Resolved (flat_map option_list
              (map mapStateToSensor
                 (filter (fun state => starts_with "sensor." (HomeAssistantState.entity_id state))
                    states))).

End Discovery.

End SensorDiscovery.

(** ** The database (src/app/services/database) *)

Module SensorRow.
(** a row of [sensors]: the sensor's columns and the two audit timestamps *)
Record t := mk {
  sensor : Sensor.t;
  created_at : Z;
  updated_at : Z
}.
End SensorRow.

(** the two tables of migrations/001_initial_schema.sql; the [id] and
    [created_at] columns of [sensor_readings] are never read by the code *)
Record Db := mkDb {
  sensor_rows : list SensorRow.t;
  reading_rows : Store
}.

(** *** sensorRepository (re-exported by database/index.ts from
    ./sensorRepository; its text is at migrations/001_initial_schema.sql,
    lines 55-178) *)

Module SensorRepository.

Definition row_id (r : SensorRow.t) : string := Sensor.id (SensorRow.sensor r).

(** every text column's value is within its VARCHAR limit: 255 characters
    for [id], [entity_id] and [friendly_name], 20 for [unit] *)
Definition fits (s : Sensor.t) : bool :=
  (length (Sensor.id s) <=? 255) && (length (Sensor.entityId s) <=? 255)
  && (length (Sensor.friendlyName s) <=? 255) && (length (Sensor.unit s) <=? 20).

(** the text columns of a sensor with their VARCHAR limits *)
Definition text_columns (s : Sensor.t) : list (string * nat) :=
  [(Sensor.id s, 255); (Sensor.entityId s, 255); (Sensor.friendlyName s, 255);
   (Sensor.unit s, 20)].

Fixpoint has_nul (s : string) : bool :=
  match s with
  | EmptyString => false
  | String c s' => (nat_of_ascii c =? 0) || has_nul s'
  end.

(** node-postgres sends text parameters in UTF-8, and the server refuses
    the byte 0x00 in them *)
Definition text_ok (s : Sensor.t) : bool :=
  negb (has_nul (Sensor.id s) || has_nul (Sensor.entityId s)
        || has_nul (Sensor.friendlyName s) || has_nul (Sensor.unit s)).

Fixpoint all_spaces (s : string) : bool :=
  match s with
  | EmptyString => true
  | String c s' => Ascii.eqb c " "%char && all_spaces s'
  end.

(** a text assigned to a VARCHAR(n) column: a longer value is an error
    unless all the characters past the n-th are spaces, which are cut *)
Definition varchar (n : nat) (x : string) : option string :=
  if length x <=? n then Some x
  else if all_spaces (drop n x) then Some (take n x) else None.

(** a time value from which a timestamptz of this year range is
    accepted when the process runs in UTC: 4714-11-24 00:00 UTC BC, Julian
    day 0, which is 2440588 days before the epoch *)
Definition utc_timestamptz_ok (t : Z) : bool := (-210866803200000 <=? t)%Z.

Section Upsert.

(** whether the server accepts as a [timestamp with time zone] the text
    node-postgres writes for a [Date] with this time value: it writes the
    local time with its offset, so the range depends on the process's time
    zone ([utc_timestamptz_ok] in UTC) *)
Variable timestamptz_ok : Z -> bool.

(** the row the server makes of the seven parameters: it checks the
    encoding of each text parameter and converts [$6] when it binds them,
    and applies the VARCHAR limits when it assigns the columns *)
Definition to_row (s : Sensor.t) : Promise Sensor.t :=
  if negb (text_ok s) then Rejected "invalid byte sequence for encoding UTF8: 0x00"
  else if negb (timestamptz_ok (Sensor.lastSeen s)) then Rejected "timestamp out of range"
  else
    match varchar 255 (Sensor.id s), varchar 255 (Sensor.entityId s),
          varchar 255 (Sensor.friendlyName s), varchar 20 (Sensor.unit s) with
    | Some id, Some entityId, Some friendlyName, Some unit =>
        Resolved (Sensor.mk id friendlyName entityId (Sensor.type s) unit
                    (Sensor.lastSeen s) (Sensor.status s))
    | _, _, _, _ => Rejected "value too long for type character varying"
    end.

(** a row of another sensor holds [s]'s [entity_id], which is UNIQUE *)
Definition entity_clash (s : Sensor.t) (r : SensorRow.t) : bool :=
  String.eqb (Sensor.entityId (SensorRow.sensor r)) (Sensor.entityId s)
  && negb (String.eqb (row_id r) (Sensor.id s)).

(** the row [sensor] written by [ON CONFLICT (id) DO UPDATE SET ...,
    updated_at = NOW()], [now] being the transaction's [NOW()].  A new row
    takes [created_at] and [updated_at] from the column defaults; an
    updated row keeps its [created_at] and gets [updated_at] from the SET
    list and from the BEFORE UPDATE trigger, both [NOW()].  The conflict
    clause covers [id] only, so a clash on [entity_id] is an error. *)
Definition upsert_row (now : Z) (sensor : Sensor.t) (db : Db) : Promise Db :=
  if existsb (entity_clash sensor) (sensor_rows db)
  then Rejected "duplicate key value violates unique constraint"
  else if existsb (fun r => String.eqb (row_id r) (Sensor.id sensor)) (sensor_rows db)
  then Resolved (mkDb (map (fun r => if String.eqb (row_id r) (Sensor.id sensor)
                                     then SensorRow.mk sensor (SensorRow.created_at r) now
                                     else r) (sensor_rows db))
                      (reading_rows db))
  else Resolved (mkDb (sensor_rows db ++ [SensorRow.mk sensor now now]) (reading_rows db)).

(** [upsertSensor] *)
Definition upsertSensor (now : Z) (sensor : Sensor.t) (db : Db) : Promise Db :=
  await row := to_row sensor in
  upsert_row now row db.

End Upsert.

(** [getSensorById]: [WHERE id = $1] on the primary key; the columns are
    copied back, [last_seen] through [new Date], which gives the same
    instant *)
Definition getSensorById (id : string) (db : Db) : Promise (option Sensor.t) :=
  Resolved (option_map SensorRow.sensor
              (find (fun r => String.eqb (row_id r) id) (sensor_rows db))).

(** [UPDATE sensors SET status = $1, updated_at = NOW() WHERE id = $2] *)
Definition updateSensorStatus (now : Z) (id : string) (status : SensorStatus) (db : Db)
  : Promise Db :=
  Resolved (mkDb (map (fun r =>
                         if String.eqb (row_id r) id
                         then let s := SensorRow.sensor r in
                              SensorRow.mk (Sensor.mk (Sensor.id s) (Sensor.friendlyName s)
                                              (Sensor.entityId s) (Sensor.type s) (Sensor.unit s)
                                              (Sensor.lastSeen s) status)
                                (SensorRow.created_at r) now
                         else r) (sensor_rows db))
                 (reading_rows db)).

(** [DELETE FROM sensors WHERE id = $1]; [ON DELETE CASCADE] deletes the
    sensor's readings with it *)
Definition deleteSensor (id : string) (db : Db) : Promise Db :=
  Resolved (mkDb (filter (fun r => negb (String.eqb (row_id r) id)) (sensor_rows db))
                 (filter (fun r => negb (String.eqb (SensorReading.sensorId r) id))
                    (reading_rows db))).

End SensorRepository.

(** *** readingRepository (src/app/services/database/readingRepository.ts) *)

Module ReadingRepository.

Definition sensor_exists (db : Db) (id : string) : bool :=
  existsb (fun r => String.eqb (SensorRepository.row_id r) id) (sensor_rows db).

Definition has_some_value (r : SensorReading.t) : bool :=
  isSome (SensorReading.temperature r) || isSome (SensorReading.humidity r).

(** a new row of [sensor_readings] meets the foreign key to [sensors] and
    the [at_least_one_value] check *)
Definition row_ok (db : Db) (r : SensorReading.t) : bool :=
  sensor_exists db (SensorReading.sensorId r) && has_some_value r.

(** [insertReading]; [?? null] stores an absent value as NULL *)
Definition insertReading (reading : SensorReading.t) (db : Db) : Promise Db :=
  if negb (has_some_value reading)
  then Rejected "new row violates check constraint at_least_one_value"
  else if negb (sensor_exists db (SensorReading.sensorId reading))
  then Rejected "insert violates foreign key constraint"
  else Resolved (mkDb (sensor_rows db) (reading_rows db ++ [reading])).

(** a query parameter as node-postgres sends it *)
Inductive SqlParam :=
| PText (s : string)
| PTime (t : Z)
| PNum (x : Z)
| PNull.

Definition param_of (v : option Z) : SqlParam :=
  match v with Some x => PNum x | None => PNull end.

(** the decimal digits of a natural number, as [Number.prototype.toString]
    writes them *)
Fixpoint uint_string (d : Decimal.uint) : string :=
  match d with
  | Decimal.Nil => EmptyString
  | Decimal.D0 d' => String "0" (uint_string d')
  | Decimal.D1 d' => String "1" (uint_string d')
  | Decimal.D2 d' => String "2" (uint_string d')
  | Decimal.D3 d' => String "3" (uint_string d')
  | Decimal.D4 d' => String "4" (uint_string d')
  | Decimal.D5 d' => String "5" (uint_string d')
  | Decimal.D6 d' => String "6" (uint_string d')
  | Decimal.D7 d' => String "7" (uint_string d')
  | Decimal.D8 d' => String "8" (uint_string d')
  | Decimal.D9 d' => String "9" (uint_string d')
  end.

Definition number_toString (n : nat) : string := uint_string (Nat.to_uint n).

(** [Array.prototype.join] *)
Fixpoint join (sep : string) (l : list string) : string :=
  match l with
  | [] => EmptyString
  | [x] => x
  | x :: l' => (x ++ sep ++ join sep l')%string
  end.

(** the tuple the [map] callback returns for the reading at [index] *)
Definition placeholder (index : nat) : string :=
  let baseIndex := index * 4 in
  ("($" ++ number_toString (baseIndex + 1) ++ ", $" ++ number_toString (baseIndex + 2)
   ++ ", $" ++ number_toString (baseIndex + 3) ++ ", $" ++ number_toString (baseIndex + 4)
   ++ ")")%string.

(** [values] after the [map]: the callback pushes the four fields of each
    reading in turn *)
Definition batch_values (readings : list SensorReading.t) : list SqlParam :=
  flat_map (fun r => [PText (SensorReading.sensorId r); PTime (SensorReading.timestamp r);
                      param_of (SensorReading.temperature r);
                      param_of (SensorReading.humidity r)]) readings.

(** [placeholders] *)
Definition batch_placeholders (readings : list SensorReading.t) : string :=
  join ", " (map placeholder (seq 0 (List.length readings))).

(** How the server reads the [VALUES] list of the statement: tokens, ... *)
Inductive Tok := TLParen | TRParen | TComma | TParam (n : nat) | TOther.

Definition is_digit (c : ascii) : bool :=
  let n := nat_of_ascii c in (48 <=? n) && (n <=? 57).

Definition char_tok (c : ascii) : list Tok :=
  if Ascii.eqb c "(" then [TLParen]
  else if Ascii.eqb c ")" then [TRParen]
  else if Ascii.eqb c "," then [TComma]
  else if is_ws c then []
  else [TOther].

(** [st] is [Some n] inside a parameter [$...] whose digits so far read [n] *)
Fixpoint lex (st : option nat) (s : string) : list Tok :=
  match s with
  | EmptyString => match st with Some n => [TParam n] | None => [] end
  | String c s' =>
      match st with
      | Some n =>
          if is_digit c then lex (Some (n * 10 + (nat_of_ascii c - 48))) s'
          else TParam n :: (if Ascii.eqb c "$" then lex (Some 0) s'
                            else char_tok c ++ lex None s')
      | None =>
          if Ascii.eqb c "$" then lex (Some 0) s' else char_tok c ++ lex None s'
      end
  end.

(** ... the tuples of parameter numbers, ... *)
Inductive PState :=
| PStart
| PParam (cur : list nat)
| PAfterParam (cur : list nat)
| PAfterTuple.

Fixpoint parse_tuples (st : PState) (ts : list Tok) : option (list (list nat)) :=
  match ts, st with
  | [], PAfterTuple => Some []
  | TLParen :: ts', PStart => parse_tuples (PParam []) ts'
  | TParam n :: ts', PParam cur => parse_tuples (PAfterParam (cur ++ [n])) ts'
  | TComma :: ts', PAfterParam cur => parse_tuples (PParam cur) ts'
  | TRParen :: ts', PAfterParam cur => option_map (cons cur) (parse_tuples PAfterTuple ts')
  | TComma :: ts', PAfterTuple => parse_tuples PStart ts'
  | _, _ => None
  end.

(** ... and the row each tuple gives with the parameters bound: the columns
    [(sensor_id, timestamp, temperature, humidity)] in that order *)
Definition num_or_null (p : SqlParam) : option (option Z) :=
  match p with PNum x => Some (Some x) | PNull => Some None | _ => None end.

Definition bind_row (values : list SqlParam) (tuple : list nat) : option SensorReading.t :=
  match map (fun k => match k with 0 => None | S i => nth_error values i end) tuple with
  | [Some (PText id); Some (PTime t); Some a; Some b] =>
      match num_or_null a, num_or_null b with
      | Some x, Some y => Some (SensorReading.mk id t x y)
      | _, _ => None
      end
  | _ => None
  end.

Fixpoint traverse {A B : Type} (f : A -> option B) (l : list A) : option (list B) :=
  match l with
  | [] => Some []
  | x :: l' =>
      match f x, traverse f l' with
      | Some y, Some ys => Some (y :: ys)
      | _, _ => None
      end
  end.

Definition max_param (tuples : list (list nat)) : nat := fold_right Nat.max 0 (concat tuples).

(** the number of parameters the server reads from the Bind message.
    node-postgres writes the count of the values as a 16-bit field twice:
    before the format codes, one per value, and before the values.  From
    65536 values on the first count is wrapped, and what the server reads as
    the second is one of the remaining format codes, 0 for text. *)
Definition bind_count (n : nat) : nat := if n <? 65536 then n else 0.

(** the rows a [VALUES] list inserts: the list must parse, the number of
    parameters bound must be the highest [$k] used, and each tuple must
    bind to a row *)
Definition values_rows (placeholders : string) (values : list SqlParam)
  : option (list SensorReading.t) :=
  match parse_tuples PStart (lex None placeholders) with
  | None => None
  | Some tuples =>
      if max_param tuples =? bind_count (List.length values)
      then traverse (bind_row values) tuples
      else None
  end.

(** [insertReadingsBatch]: no query for an empty batch; otherwise one
    INSERT, which inserts all its rows or none *)
Definition insertReadingsBatch (readings : list SensorReading.t) (db : Db) : Promise Db :=
  match readings with
  | [] => Resolved db
  | _ =>
      match values_rows (batch_placeholders readings) (batch_values readings) with
      | None => Rejected "bind message supplies a wrong number of parameters"
      | Some rows =>
          if forallb (row_ok db) rows
          then Resolved (mkDb (sensor_rows db) (reading_rows db ++ rows))
          else Rejected "violates foreign key or check constraint"
      end
  end.

End ReadingRepository.

(** ** Schema migration (src/app/services/database/migrate.ts) *)

Module Migrate.

(** a DDL statement of the migration file, as it acts on the catalog: the
    names of the schema's tables, indexes, functions and triggers *)
Inductive Stmt :=
| CreateIfNotExists (name : string) (needs : list string)
| CreateOrReplace (name : string)
| Create (name : string) (needs : list string).

Definition catalog := list string.

Definition mem (c : catalog) (n : string) : bool := existsb (String.eqb n) c.

(** the catalog with [n] in it *)
Definition ensure (c : catalog) (n : string) : catalog := if mem c n then c else c ++ [n].

(** a statement on the catalog; CREATE TRIGGER has no IF NOT EXISTS *)
Definition exec_stmt (c : catalog) (st : Stmt) : Promise catalog :=
  match st with
  | CreateIfNotExists n needs =>
      if mem c n then Resolved c
      else if forallb (mem c) needs then Resolved (c ++ [n])
      else Rejected "relation does not exist"
  | CreateOrReplace n => Resolved (ensure c n)
  | Create n needs =>
      if mem c n then Rejected (n ++ " already exists")
      else if forallb (mem c) needs then Resolved (c ++ [n])
      else Rejected "relation does not exist"
  end.

Fixpoint exec_script (c : catalog) (script : list Stmt) : Promise catalog :=
  match script with
  | [] => Resolved c
  | st :: rest =>
      await c' := exec_stmt c st in
      exec_script c' rest
  end.

(** the statements of migrations/001_initial_schema.sql, lines 1-53 *)
Definition initial_schema : list Stmt := [
  CreateIfNotExists "sensors" [];
  CreateIfNotExists "sensor_readings" ["sensors"];
  CreateIfNotExists "idx_sensors_status" ["sensors"];
  CreateIfNotExists "idx_sensors_entity_id" ["sensors"];
  CreateIfNotExists "idx_sensor_readings_sensor_timestamp" ["sensor_readings"];
  CreateIfNotExists "idx_sensor_readings_timestamp" ["sensor_readings"];
  CreateOrReplace "update_updated_at_column";
  Create "update_sensors_updated_at" ["sensors"; "update_updated_at_column"]].

(** the file as [readFileSync] returns it *)
Definition migrationSQL : list Stmt := initial_schema.

(** [pool.query(sql)] with no parameters: a simple query, whose statements
    run as one transaction, so on an error the catalog stays as it was *)
Definition query (c : catalog) (q : list Stmt) : Promise catalog := exec_script c q.

(** [runMigrations]; the [catch] rethrows *)
Definition runMigrations (c : catalog) : Promise catalog := query c migrationSQL.

Definition checkTablesExist (c : catalog) : Promise bool :=
  Resolved (mem c "sensors" && mem c "sensor_readings").

(** [initializeDatabase] (src/app/worker/index.ts); the [catch] rethrows *)
Definition initializeDatabase (c : catalog) : Promise catalog :=
  await tablesExist := checkTablesExist c in
  if tablesExist then Resolved c else runMigrations c.

End Migrate.

(** ** Location detail page (loader, src/app/routes/sensor.$location.tsx) *)

Module AggregatedReading.
Record t := mk {
  timestamp : Z;
  temperature : option Z;
  humidity : option Z;
  battery : option Z
}.
End AggregatedReading.

Module SensorDetail.

(** a JS [Map]: [set] overwrites an existing key in place and appends a new
    one *)
Section JsMap.
Context {K V : Type} (eqb : K -> K -> bool).

Fixpoint map_set (k : K) (v : V) (m : list (K * V)) : list (K * V) :=
  match m with
  | [] => [(k, v)]
  | (k', v') :: m' => if eqb k' k then (k', v) :: m' else (k', v') :: map_set k v m'
  end.

Definition map_get (k : K) (m : list (K * V)) : option V :=
  option_map snd (find (fun p => eqb (fst p) k) m).

End JsMap.

(** [Math.floor(t / 1000) * 1000]: the quotient of two doubles is rounded,
    but over the millisecond counts of the Date range its floor is the
    floor of the exact quotient *)
Definition round_second (t : Z) : Z := (t / 1000 * 1000)%Z.

(** [sensorTypeMap] *)
Definition sensorTypeMap (allSensors : list Sensor.t) (sensorIds : list string)
  : list (string * option DataType) :=
  fold_left (fun m sensorId =>
               match find (fun s => String.eqb (Sensor.id s) sensorId) allSensors with
               | Some sensor =>
                   map_set String.eqb sensorId (getSensorDataType (Sensor.friendlyName sensor)) m
               | None => m
               end) sensorIds [].

(** [sensorType === k]: a missing entry ([undefined]) and [null] are no kind *)
Definition type_is (k : DataType) (sensorType : option (option DataType)) : bool :=
  match sensorType with Some (Some k') => dt_eqb k k' | _ => false end.

(** one iteration of the loop over [historicalReadings].  The map is keyed
    by [roundedTimestamp.toISOString()], which is one-to-one on valid
    dates, so by the rounded instant here.  The object stored for a new key
    is the one updated afterwards, so the update shows in the map. *)
Definition aggregate_step (types : list (string * option DataType))
    (m : list (Z * AggregatedReading.t)) (reading : SensorReading.t)
  : list (Z * AggregatedReading.t) :=
  let roundedTimestamp := round_second (SensorReading.timestamp reading) in
  let sensorType := map_get String.eqb (SensorReading.sensorId reading) types in
  let '(aggregated, m) :=
    match map_get Z.eqb roundedTimestamp m with
    | Some a => (a, m)
    | None =>
        let a := AggregatedReading.mk roundedTimestamp None None None in
        (a, map_set Z.eqb roundedTimestamp a m)
    end in
  let ts := AggregatedReading.timestamp aggregated in
  let t := AggregatedReading.temperature aggregated in
  let h := AggregatedReading.humidity aggregated in
  let b := AggregatedReading.battery aggregated in
  let aggregated' :=
    if type_is DTtemperature sensorType && isSome (SensorReading.temperature reading)
    then AggregatedReading.mk ts (SensorReading.temperature reading) h b
    else if type_is DThumidity sensorType && isSome (SensorReading.humidity reading)
    then AggregatedReading.mk ts t (SensorReading.humidity reading) b
    else if type_is DTbattery sensorType && isSome (SensorReading.humidity reading)
    then AggregatedReading.mk ts t h (SensorReading.humidity reading)
    else aggregated in
  map_set Z.eqb roundedTimestamp aggregated' m.

(** [sort((a, b) => a.timestamp.getTime() - b.timestamp.getTime())], a
    stable sort *)
Fixpoint insert_ts (x : AggregatedReading.t) (l : list AggregatedReading.t)
  : list AggregatedReading.t :=
  match l with
  | [] => [x]
  | y :: l' =>
      if (AggregatedReading.timestamp x <=? AggregatedReading.timestamp y)%Z then x :: l
      else y :: insert_ts x l'
  end.

Definition sort_by_timestamp (l : list AggregatedReading.t) : list AggregatedReading.t :=
  fold_right insert_ts [] l.

(** [Array.from(groupedByTimestamp.values()).sort(...)] after the loop *)
Definition aggregateReadings (types : list (string * option DataType))
    (historicalReadings : list SensorReading.t) : list AggregatedReading.t :=
  sort_by_timestamp (map snd (fold_left (aggregate_step types) historicalReadings [])).

Inductive LoaderData :=
| Loaded (location : string) (currentGroup : SensorGroup.t) (allLocations : list string)
    (historicalReadings : list AggregatedReading.t)
(** [currentGroup: null, allLocations: [], historicalReadings: []] *)
| LoadFailed (location : string) (error : string).

Inductive LoaderOutcome :=
| Returns (data : LoaderData)
| ThrowsResponse (status : Z) (body : string)
| Throws (error : string).

Section Loader.

Variable localeCompare : string -> string -> Z.
(** [decodeURIComponent]: [None] is a thrown URIError *)
Variable decodeURIComponent : string -> option string.
Variable getAllSensors : Promise (list Sensor.t).
Variable getAllLatestReadings : Promise LatestReadings.
(** [readingRepository.getReadingsByTimeRange(sensorId, sevenDaysAgo, now)] *)
Variable getReadingsByTimeRange : string -> Promise (list SensorReading.t).

(** the loop [historicalReadings.push(...readings)] *)
Fixpoint fetch_history (sensorIds : list string) (acc : list SensorReading.t)
  : Promise (list SensorReading.t) :=
  match sensorIds with
  | [] => Resolved acc
  | sensorId :: rest =>
      await readings := getReadingsByTimeRange sensorId in
      fetch_history rest (acc ++ readings)
  end.

(** the [try] block; a thrown [Response] is the value [inr (status, body)] *)
Definition loader_body (location : string) : Promise (LoaderData + (Z * string)) :=
  await allSensors := getAllSensors in
  await latestReadings := getAllLatestReadings in
  let allGroups := groupSensorsByLocation localeCompare allSensors latestReadings in
  match find (fun g => String.eqb (SensorGroup.location g) location) allGroups with
  | None => Resolved (inr (404%Z, "Sensor not found"))
  | Some currentGroup =>
      await historicalReadings := fetch_history (SensorGroup.sensorIds currentGroup) [] in
      let types := sensorTypeMap allSensors (SensorGroup.sensorIds currentGroup) in
      Resolved (inl (Loaded location currentGroup (map SensorGroup.location allGroups)
                       (aggregateReadings types historicalReadings)))
  end.

(** the [catch] rethrows a [Response] and turns any other error into the
    error result *)
Definition loader (params_location : string) : LoaderOutcome :=
  match decodeURIComponent params_location with
  | None => Throws "URIError: URI malformed"
  | Some location =>
      match loader_body location with
      | Resolved (inl data) => Returns data
      | Resolved (inr (status, body)) => ThrowsResponse status body
      | Rejected e => Returns (LoadFailed location e)
      end
  end.

End Loader.

End SensorDetail.

(** ** Worker: sensor discovery and upsert (discoverAndStoreSensors, src/app/worker/index.ts) *)

(** the upsert loop; [now k] is [NOW()] of the [k]-th upsert, each one
    being a transaction of its own.  An error stops the loop and leaves
    the rows written so far in place. *)
Fixpoint upsert_all (timestamptz_ok : Z -> bool) (now : nat -> Z) (k : nat)
  (sensors : list Sensor.t) (db : Db) : Db * option string :=
  match sensors with
  | [] => (db, None)
  | sensor :: rest =>
      match SensorRepository.upsertSensor timestamptz_ok (now k) sensor db with
      | Resolved db' => upsert_all timestamptz_ok now (S k) rest db'
      | Rejected e => (db, Some e)
      end
  end.

(** [discoverAndStoreSensors]: the database after the call, and the
    promise it returns; the [catch] rethrows *)
Definition discoverAndStoreSensors (timestamptz_ok : Z -> bool)
    (discovered : Promise (list Sensor.t)) (now : nat -> Z)
    (db : Db) : Db * Promise (list Sensor.t) :=
  match discovered with
  | Rejected e => (db, Rejected e)
  | Resolved sensors =>
      match upsert_all timestamptz_ok now 0 sensors db with
      | (db', None) => (db', Resolved sensors)
      | (db', Some e) => (db', Rejected e)
      end
  end.

(** the integrity the schema keeps: [sensors.id] is a primary key, every
    reading names a stored sensor and holds a value *)
Definition db_consistent (db : Db) : Prop :=
  NoDup (map SensorRepository.row_id (sensor_rows db))
  /\ Forall (fun r => ReadingRepository.row_ok db r = true) (reading_rows db).

(** [readingRepository.insertReading] once per reading, in order *)
Fixpoint insert_each (readings : list SensorReading.t) (db : Db) : Promise Db :=
  match readings with
  | [] => Resolved db
  | r :: rest =>
      await db' := ReadingRepository.insertReading r db in
      insert_each rest db'
  end.

(** the kind a reading of the detail page counts as: that of the first
    sensor with its id, if the id is one of the group's *)
Definition reading_kind (allSensors : list Sensor.t) (sensorIds : list string)
    (r : SensorReading.t) : option DataType :=
  if existsb (String.eqb (SensorReading.sensorId r)) sensorIds
  then match find (fun s => String.eqb (Sensor.id s) (SensorReading.sensorId r)) allSensors with
       | Some s => getSensorDataType (Sensor.friendlyName s)
       | None => None
       end
  else None.

Definition kind_is (k : DataType) (o : option DataType) : bool :=
  match o with Some k' => dt_eqb k k' | None => false end.

(** the last present value of a list *)
Fixpoint last_some (l : list (option Z)) : option Z :=
  match l with
  | [] => None
  | x :: l' => match last_some l' with Some v => Some v | None => x end
  end.

(** what a discovered sensor holds of the state it comes from *)
Definition discovered_from (newDate : string -> Z) (sensor : Sensor.t)
    (state : HomeAssistantState.t) : Prop :=
  let eid := HomeAssistantState.entity_id state in
  Sensor.entityId sensor = eid
  /\ Sensor.id sensor = drop 7 eid
  /\ getSensorType state = Some (Sensor.type sensor)
  /\ Sensor.friendlyName sensor
     = SensorDiscovery.or_else (HomeAssistantState.friendly_name state) eid
  /\ Sensor.unit sensor = SensorDiscovery.or_else (HomeAssistantState.unit_of_measurement state) ""
  /\ Sensor.lastSeen sensor = newDate (HomeAssistantState.last_updated state)
  /\ Sensor.status sensor = online.

(** the tokens and the parameter numbers of the tuple [placeholder i] *)
Definition toks_of (i : nat) : list ReadingRepository.Tok :=
  let P := ReadingRepository.TParam in
  let C := ReadingRepository.TComma in
  [ReadingRepository.TLParen; P (i * 4 + 1); C; P (i * 4 + 2); C; P (i * 4 + 3);
   C; P (i * 4 + 4); ReadingRepository.TRParen].

Definition tup (i : nat) : list nat := [i * 4 + 1; i * 4 + 2; i * 4 + 3; i * 4 + 4].

(** example data *)
Definition flur_humidity_state : HomeAssistantState.t :=
  HomeAssistantState.mk "sensor.flur_humidity" "55" (Some "Flur Humidity") (Some "%")
    (Some "humidity") "2025-11-09T10:00:00Z" "2025-11-09T10:00:00Z".

Definition kitchen_light_state : HomeAssistantState.t :=
  HomeAssistantState.mk "light.kitchen" "on" None None None
    "2025-11-09T10:00:00Z" "2025-11-09T10:00:00Z".

Definition example_states : list HomeAssistantState.t :=
  [humidity_class_celsius; flur_humidity_state; kitchen_light_state].

Definition example_discovered : list Sensor.t :=
  match SensorDiscovery.discoverSensors (Resolved example_states) (fun _ => 0%Z) with
  | Resolved sensors => sensors
  | Rejected _ => []
  end.

Definition example_db : Db :=
  mkDb [SensorRow.mk (buero_temp_sensor 10 online) 0 0]
       [SensorReading.mk "buero_temp" 10 (Some 220%Z) None].

Definition example_batch : list SensorReading.t :=
  [SensorReading.mk "buero_temp" 60000 (Some 221%Z) None;
   SensorReading.mk "buero_temp" 120000 (Some 222%Z) None].

Definition example_history : list SensorReading.t :=
  [SensorReading.mk "buero_temp" 1000500 (Some 220%Z) None;
   SensorReading.mk "buero_hum" 1000900 None (Some 526%Z);
   SensorReading.mk "buero_temp" 1000999 (Some 221%Z) None;
   SensorReading.mk "buero_temp" 1002000 (Some 230%Z) None].

Definition example_points : list AggregatedReading.t :=
  SensorDetail.aggregateReadings
    (SensorDetail.sensorTypeMap example_sensors ["buero_temp"; "buero_hum"]) example_history.

Example extract_buero_t : extractLocation (Buero ++ " Temperature")%string = Buero.
Proof. reflexivity. Qed.
Example extract_ikea : extractLocation ikea_name = "IKEA of Sweden RODRET Dimmer".
Proof. reflexivity. Qed.
Example ikea_device : isDeviceName (extractLocation ikea_name) = true.
Proof. vm_compute. reflexivity. Qed.
Example of_sweden_only : isDeviceName "Gift of Sweden" = true /\ isDeviceName "Bedroom" = false
  /\ isDeviceName "Proof sweden" = false /\ isDeviceName "of swedenx" = false.
Proof. vm_compute. repeat split. Qed.
Example datatype_bat : getSensorDataType (Buero ++ " Battery")%string = Some DTbattery.
Proof. reflexivity. Qed.

(** ** Retention *)

Lemma filter_partition_perm {A : Type} (f : A -> bool) (l : list A) :
  Permutation l (filter (fun x => negb (f x)) l ++ filter f l).
Proof.
  induction l as [|x l IH]; simpl; [constructor|].
  destruct (f x); simpl.
  - apply Permutation_cons_app. exact IH.
  - constructor. exact IH.
Qed.

Lemma filter_idem {A : Type} (f : A -> bool) (l : list A) :
  filter f (filter f l) = filter f l.
Proof.
  induction l as [|x l IH]; simpl; [reflexivity|].
  destruct (f x) eqn:E; simpl; [rewrite E, IH|]; auto.
Qed.

(** C4: [deleteOldReadings cutoff] keeps exactly the rows stamped at or
    after the cutoff, deletes (and counts) exactly the rows stamped
    strictly before it, and a second run with the same cutoff on the
    remaining rows deletes nothing. *)
Theorem deleteOldReadings_exact_and_idempotent (cutoff : Z) (table : Store) :
  exists removed,
    Permutation table (fst (deleteOldReadings cutoff table) ++ removed)
    /\ Forall (fun r => (SensorReading.timestamp r < cutoff)%Z) removed
    /\ Forall (fun r => (cutoff <= SensorReading.timestamp r)%Z) (fst (deleteOldReadings cutoff table))
    /\ snd (deleteOldReadings cutoff table) = List.length removed
    /\ deleteOldReadings cutoff (fst (deleteOldReadings cutoff table))
       = (fst (deleteOldReadings cutoff table), 0).
Proof.
  set (old := fun r : SensorReading.t => Z.ltb (SensorReading.timestamp r) cutoff).
  exists (filter old table).
  pose proof (filter_partition_perm old table) as Hp.
  unfold deleteOldReadings; simpl.
  split; [exact Hp|]. split; [|split; [|split]].
  - apply Forall_forall. intros r Hr. apply filter_In in Hr as [_ Hr].
    unfold old in Hr. apply Z.ltb_lt. exact Hr.
  - apply Forall_forall. intros r Hr. apply filter_In in Hr as [_ Hr].
    unfold old in Hr. apply negb_true_iff, Z.ltb_ge in Hr. exact Hr.
  - apply Permutation_length in Hp. rewrite length_app in Hp.
    unfold old in *; cbv beta in *. lia.
  - rewrite filter_idem. f_equal. lia.
Qed.

(** ** Sensor classifier *)



(** C3 (counterexample): a record whose device class is [humidity] but
    whose unit contains the degree sign is classified as temperature, so
    device-class [humidity] does not decide the kind regardless of the unit. *)
Lemma getSensorType_humidity_class_degree_unit :
  HomeAssistantState.device_class humidity_class_celsius = Some "humidity"
  /\ getSensorType humidity_class_celsius = Some temperature
  /\ getSensorType humidity_class_celsius <> Some humidity.
Proof. vm_compute. repeat split; discriminate. Qed.

(** C3 (amended): the kind is [temperature] when the device class is
    [temperature] or the unit contains the degree sign; otherwise it is
    [humidity] when the device class is [humidity] or the unit is exactly
    "%"; otherwise there is no kind.  Hence a [temperature] device class
    always gives temperature, a [humidity] device class gives humidity
    unless the unit contains the degree sign, and without either device
    class the unit alone decides. *)
Theorem getSensorType_temperature_signals_first (state : HomeAssistantState.t) :
  (HomeAssistantState.device_class state = Some "temperature" ->
     getSensorType state = Some temperature)
  /\ (HomeAssistantState.device_class state = Some "humidity" ->
     getSensorType state = if unit_has_degree state then Some temperature else Some humidity)
  /\ (HomeAssistantState.device_class state <> Some "temperature" ->
      HomeAssistantState.device_class state <> Some "humidity" ->
      getSensorType state =
        if unit_has_degree state then Some temperature
        else if opt_eqb (HomeAssistantState.unit_of_measurement state) "%"
        then Some humidity else None).
Proof.
  unfold getSensorType, unit_has_degree.
  destruct state as [eid st fn u dc lc lu]; simpl.
  split; [|split].
  - intros ->. reflexivity.
  - intros ->. simpl. destruct u as [u|]; [destruct (includes u degree)|]; reflexivity.
  - intros Ht Hh.
    assert (Et : opt_eqb dc "temperature" = false).
    { destruct dc as [d|]; [|reflexivity]. simpl.
      apply String.eqb_neq. intros ->. apply Ht. reflexivity. }
    assert (Eh : opt_eqb dc "humidity" = false).
    { destruct dc as [d|]; [|reflexivity]. simpl.
      apply String.eqb_neq. intros ->. apply Hh. reflexivity. }
    rewrite Et, Eh. reflexivity.
Qed.

Lemma getSensorType_temperature_signals_first_witness :
  HomeAssistantState.device_class humidity_class_celsius = Some "humidity"
  /\ getSensorType humidity_class_celsius = Some temperature.
Proof.
  split; [reflexivity|].
  destruct (getSensorType_temperature_signals_first humidity_class_celsius) as [_ [H _]].
  rewrite (H eq_refl). vm_compute. reflexivity.
Defined.

(** ** Worker *)



Section WorkerFacts.

Variable getSensorState : string -> Promise HomeAssistantState.t.
Variable parseFloat : string -> option Z.
Variable newDate : string -> Z.
Variable insertFails : SensorReading.t -> bool.

Lemma fetchAndStoreSensorData_outcome (table : Store) (sensor : Sensor.t) :
  fetchAndStoreSensorData getSensorState parseFloat newDate insertFails table sensor
  = Resolved (table ++ option_list (fetch_outcome getSensorState parseFloat newDate insertFails sensor),
              isSome (fetch_outcome getSensorState parseFloat newDate insertFails sensor)).
Proof.
  unfold fetchAndStoreSensorData, fetch_body, fetch_outcome, try_catch, bind.
  destruct (getSensorState (Sensor.entityId sensor)) as [state|e];
    [|rewrite app_nil_r; reflexivity].
  destruct (parseFloat (HomeAssistantState.state state)) as [v|];
    [|rewrite app_nil_r; reflexivity].
  unfold insertReading.
  destruct (insertFails (make_reading newDate sensor state v));
    [rewrite app_nil_r|]; reflexivity.
Qed.

Lemma promise_all_outcome (roster : list Sensor.t) (table : Store) :
  promise_all getSensorState parseFloat newDate insertFails table roster
  = Resolved (table ++ flat_map (fun s => option_list
                 (fetch_outcome getSensorState parseFloat newDate insertFails s)) roster,
              map (fun s => isSome (fetch_outcome getSensorState parseFloat newDate insertFails s))
                  roster).
Proof.
  revert table; induction roster as [|s roster IH]; intros table; simpl.
  - rewrite app_nil_r. reflexivity.
  - rewrite fetchAndStoreSensorData_outcome. simpl. rewrite IH. simpl.
    rewrite app_assoc. reflexivity.
Qed.

Lemma collectData_outcome (roster : list Sensor.t) (table : Store) :
  collectData getSensorState parseFloat newDate insertFails table roster
  = Resolved (table ++ flat_map (fun s => option_list
                 (fetch_outcome getSensorState parseFloat newDate insertFails s)) roster,
              map (fun s => isSome (fetch_outcome getSensorState parseFloat newDate insertFails s))
                  roster).
Proof.
  unfold collectData. destruct roster as [|s rest].
  - simpl. rewrite app_nil_r. reflexivity.
  - apply promise_all_outcome.
Qed.

(** C1: within a collection pass every per-sensor fetch resolves (no
    rejection escapes it); a sensor whose HTTP fetch rejects or whose value
    parses to NaN resolves to [false] and adds no row; and the pass as a
    whole resolves with one boolean per sensor and with the rows of all
    sensors whose fetch, parse and insert succeeded appended, whatever the
    other sensors did. *)
Theorem collectData_failure_isolation (table : Store) (roster : list Sensor.t) :
  (forall sensor, exists r,
      fetchAndStoreSensorData getSensorState parseFloat newDate insertFails table sensor
      = Resolved r)
  /\ (forall sensor, fetch_fails getSensorState parseFloat sensor ->
      fetchAndStoreSensorData getSensorState parseFloat newDate insertFails table sensor
      = Resolved (table, false))
  /\ exists table' results,
      collectData getSensorState parseFloat newDate insertFails table roster
      = Resolved (table', results)
      /\ List.length results = List.length roster
      /\ (forall sensor reading, In sensor roster ->
            fetch_outcome getSensorState parseFloat newDate insertFails sensor = Some reading ->
            In reading table')
      /\ table' = table ++ flat_map (fun s => option_list
                 (fetch_outcome getSensorState parseFloat newDate insertFails s)) roster.
Proof.
  split; [|split].
  - intros sensor. eexists. apply fetchAndStoreSensorData_outcome.
  - intros sensor Hf. rewrite fetchAndStoreSensorData_outcome.
    assert (Hn : fetch_outcome getSensorState parseFloat newDate insertFails sensor = None).
    { unfold fetch_outcome.
      destruct Hf as [[e He] | [state [Hs Hp]]]; rewrite ?He, ?Hs, ?Hp; reflexivity. }
    rewrite Hn. simpl. rewrite app_nil_r. reflexivity.
  - do 2 eexists. split; [apply collectData_outcome|].
    split; [apply length_map|]. split; [|reflexivity].
    intros sensor reading Hin Ho. apply in_or_app. right.
    apply in_flat_map. exists sensor. split; [exact Hin|]. rewrite Ho. left. reflexivity.
Qed.

Lemma make_reading_has_value (sensor : Sensor.t) (state : HomeAssistantState.t) (v : Z) :
  has_value (make_reading newDate sensor state v).
Proof.
  unfold has_value, make_reading; simpl.
  destruct (Sensor.type sensor); [left|right|left]; discriminate.
Qed.

(** C7: every reading the fetcher builds, whatever the sensor's kind
    ([temperature], [humidity] or [both]), carries a temperature or a
    humidity value, and every row a collection pass inserts is such a
    reading. *)
Theorem collectData_readings_have_value (table : Store) (roster : list Sensor.t) :
  (forall sensor state v, has_value (make_reading newDate sensor state v))
  /\ exists added results,
      collectData getSensorState parseFloat newDate insertFails table roster
      = Resolved (table ++ added, results)
      /\ Forall has_value added.
Proof.
  split; [apply make_reading_has_value|].
  do 2 eexists. split; [apply collectData_outcome|].
  apply Forall_forall. intros r Hr. apply in_flat_map in Hr as [s [_ Hs]].
  unfold fetch_outcome in Hs.
  destruct (getSensorState (Sensor.entityId s)) as [state|e]; [|destruct Hs].
  destruct (parseFloat (HomeAssistantState.state state)) as [v|]; [|destruct Hs].
  destruct (insertFails (make_reading newDate s state v)); [destruct Hs|].
  destruct Hs as [<-|[]]. apply make_reading_has_value.
Qed.

End WorkerFacts.

(** ** Location aggregator: the group map *)

Section GroupMap.

Variable latestReadings : LatestReadings.

Lemma update_group_location (s : Sensor.t) (g : SensorGroup.t) :
  SensorGroup.location (update_group latestReadings s g) = SensorGroup.location g.
Proof.
  unfold update_group.
  destruct (truthy _); [destruct (getSensorDataType _) as [[]|]|]; reflexivity.
Qed.

Lemma fold_update_location (ms : list Sensor.t) (g : SensorGroup.t) :
  SensorGroup.location (fold_left (fun g s => update_group latestReadings s g) ms g)
  = SensorGroup.location g.
Proof.
  revert g; induction ms as [|s ms IH]; intros g; simpl; [reflexivity|].
  rewrite IH. apply update_group_location.
Qed.

Lemma groups_get_location (gs : list SensorGroup.t) (k : string) (g : SensorGroup.t) :
  groups_get gs k = Some g -> SensorGroup.location g = k.
Proof.
  unfold groups_get. intros H. apply find_some in H as [_ H].
  apply String.eqb_eq. exact H.
Qed.

Lemma groups_get_update_same (gs : list SensorGroup.t) (k : string) (g' : SensorGroup.t) :
  SensorGroup.location g' = k -> groups_get gs k <> None ->
  groups_get (groups_update gs k g') k = Some g'.
Proof.
  intros Hl. induction gs as [|a gs IH]; simpl; [congruence|].
  unfold groups_get in *; simpl.
  destruct (String.eqb (SensorGroup.location a) k) eqn:E; simpl.
  - rewrite Hl, String.eqb_refl. reflexivity.
  - rewrite E. exact IH.
Qed.

Lemma groups_get_update_other (gs : list SensorGroup.t) (k k' : string) (g' : SensorGroup.t) :
  SensorGroup.location g' = k -> k <> k' ->
  groups_get (groups_update gs k g') k' = groups_get gs k'.
Proof.
  intros Hl Hk. induction gs as [|a gs IH]; simpl; [reflexivity|].
  unfold groups_get in *; simpl.
  destruct (String.eqb (SensorGroup.location a) k) eqn:E; simpl.
  - apply String.eqb_eq in E.
    rewrite Hl, E. apply String.eqb_neq in Hk. rewrite Hk. exact IH.
  - destruct (String.eqb (SensorGroup.location a) k'); [reflexivity|exact IH].
Qed.

Lemma groups_get_app (gs : list SensorGroup.t) (g : SensorGroup.t) (k : string) :
  groups_get (gs ++ [g]) k =
  match groups_get gs k with
  | Some x => Some x
  | None => if String.eqb (SensorGroup.location g) k then Some g else None
  end.
Proof.
  unfold groups_get. induction gs as [|a gs IH]; simpl.
  - destruct (String.eqb (SensorGroup.location g) k); reflexivity.
  - destruct (String.eqb (SensorGroup.location a) k); [reflexivity|exact IH].
Qed.

Lemma groups_get_none (gs : list SensorGroup.t) (k : string) :
  groups_get gs k = None -> ~ In k (map SensorGroup.location gs).
Proof.
  unfold groups_get. intros H Hin. apply in_map_iff in Hin as [g [Hg Hin]].
  eapply find_none in H; [|exact Hin]. subst k. rewrite String.eqb_refl in H. discriminate.
Qed.

Lemma groups_update_locations (gs : list SensorGroup.t) (k : string) (g' : SensorGroup.t) :
  SensorGroup.location g' = k ->
  map SensorGroup.location (groups_update gs k g') = map SensorGroup.location gs.
Proof.
  intros Hl. induction gs as [|a gs IH]; simpl; [reflexivity|].
  rewrite IH. destruct (String.eqb (SensorGroup.location a) k) eqn:E; [|reflexivity].
  apply String.eqb_eq in E. rewrite Hl, E. reflexivity.
Qed.

Lemma In_groups_get (gs : list SensorGroup.t) (g : SensorGroup.t) :
  NoDup (map SensorGroup.location gs) -> In g gs ->
  groups_get gs (SensorGroup.location g) = Some g.
Proof.
  unfold groups_get. induction gs as [|a gs IH]; simpl; [tauto|].
  intros Hnd [<-|Hin]; inversion Hnd as [|x l Hnotin Hnd']; subst.
  - rewrite String.eqb_refl. reflexivity.
  - destruct (String.eqb_spec (SensorGroup.location a) (SensorGroup.location g)) as [E|E].
    + exfalso. apply Hnotin. rewrite E. apply in_map. exact Hin.
    + apply IH; assumption.
Qed.

Lemma group_loop_snoc (pre : list Sensor.t) (s : Sensor.t) :
  group_loop latestReadings (pre ++ [s])
  = group_step latestReadings (group_loop latestReadings pre) s.
Proof. unfold group_loop. rewrite fold_left_app. reflexivity. Qed.

Lemma members_snoc (pre : list Sensor.t) (s : Sensor.t) (loc : string) :
  members (pre ++ [s]) loc
  = members pre loc ++ (if member_of loc s then [s] else []).
Proof. unfold members. rewrite filter_app. simpl. destruct (member_of loc s); reflexivity. Qed.

Lemma build_group_snoc (loc : string) (ms : list Sensor.t) (s : Sensor.t) :
  build_group latestReadings loc (ms ++ [s]) =
  Some (update_group latestReadings s
          (match build_group latestReadings loc ms with
           | Some g => g
           | None => new_group loc s
           end)).
Proof.
  destruct ms as [|m ms]; simpl; [reflexivity|].
  rewrite fold_left_app. reflexivity.
Qed.

(** the map after the loop, looked up at [loc], is the group built from
    the members of [loc] *)
Lemma group_loop_get (sensors : list Sensor.t) (loc : string) :
  groups_get (group_loop latestReadings sensors) loc
  = build_group latestReadings loc (members sensors loc).
Proof.
  induction sensors as [|s pre IH] using rev_ind; [reflexivity|].
  rewrite group_loop_snoc, members_snoc.
  unfold group_step, member_of.
  set (L := extractLocation (Sensor.friendlyName s)).
  destruct (isDeviceName L) eqn:HD; simpl.
  { rewrite app_nil_r. exact IH. }
  destruct (String.eqb_spec L loc) as [<-|Hne].
  - rewrite build_group_snoc, <- IH.
    destruct (groups_get (group_loop latestReadings pre) L) as [g|] eqn:Hg; simpl.
    + apply groups_get_update_same.
      * rewrite update_group_location. eapply groups_get_location. exact Hg.
      * congruence.
    + apply groups_get_update_same.
      * rewrite update_group_location. reflexivity.
      * rewrite groups_get_app, Hg. simpl. rewrite String.eqb_refl. discriminate.
  - rewrite app_nil_r, <- IH.
    destruct (groups_get (group_loop latestReadings pre) L) as [g|] eqn:Hg; simpl.
    + apply groups_get_update_other; [|exact Hne].
      rewrite update_group_location. eapply groups_get_location. exact Hg.
    + rewrite groups_get_update_other; [|rewrite update_group_location; reflexivity|exact Hne].
      rewrite groups_get_app.
      destruct (groups_get (group_loop latestReadings pre) loc); [reflexivity|].
      simpl. apply String.eqb_neq in Hne. rewrite Hne. reflexivity.
Qed.

Lemma group_loop_nodup (sensors : list Sensor.t) :
  NoDup (map SensorGroup.location (group_loop latestReadings sensors)).
Proof.
  induction sensors as [|s pre IH] using rev_ind; [constructor|].
  rewrite group_loop_snoc. unfold group_step.
  set (L := extractLocation (Sensor.friendlyName s)).
  destruct (isDeviceName L); [exact IH|].
  destruct (groups_get (group_loop latestReadings pre) L) as [g|] eqn:Hg; simpl.
  - rewrite groups_update_locations; [exact IH|].
    rewrite update_group_location. eapply groups_get_location. exact Hg.
  - rewrite groups_update_locations; [|rewrite update_group_location; reflexivity].
    rewrite map_app. simpl. apply NoDup_app; [exact IH|repeat constructor; simpl; tauto|].
    intros x Hx [<-|[]]. apply (groups_get_none _ _ Hg). exact Hx.
Qed.

Lemma group_loop_build (sensors : list Sensor.t) (g : SensorGroup.t) :
  In g (group_loop latestReadings sensors) ->
  build_group latestReadings (SensorGroup.location g) (members sensors (SensorGroup.location g))
  = Some g.
Proof.
  intros Hin. rewrite <- group_loop_get.
  apply In_groups_get; [apply group_loop_nodup|exact Hin].
Qed.

End GroupMap.

(** ** Location aggregator: sorting *)

Section SortFacts.

Variable localeCompare : string -> string -> Z.

Lemma insert_by_perm (x : SensorGroup.t) (l : list SensorGroup.t) :
  Permutation (insert_by localeCompare x l) (x :: l).
Proof.
  induction l as [|y l IH]; simpl; [reflexivity|].
  destruct (Z.ltb 0 _); [reflexivity|].
  rewrite IH. apply perm_swap.
Qed.

Lemma sort_groups_perm_acc (l acc : list SensorGroup.t) :
  Permutation (fold_left (fun acc x => insert_by localeCompare x acc) l acc) (l ++ acc).
Proof.
  revert acc; induction l as [|x l IH]; intros acc; simpl; [reflexivity|].
  rewrite IH, insert_by_perm. symmetry. apply Permutation_middle.
Qed.

Lemma sort_groups_perm (l : list SensorGroup.t) :
  Permutation (sort_groups localeCompare l) l.
Proof. unfold sort_groups. rewrite sort_groups_perm_acc, app_nil_r. reflexivity. Qed.

Lemma in_groupSensorsByLocation (sensors : list Sensor.t) (latestReadings : LatestReadings)
  (g : SensorGroup.t) :
  In g (groupSensorsByLocation localeCompare sensors latestReadings) ->
  build_group latestReadings (SensorGroup.location g) (members sensors (SensorGroup.location g))
  = Some g.
Proof.
  intros Hin. apply group_loop_build.
  eapply Permutation_in; [apply sort_groups_perm|exact Hin].
Qed.


Hypothesis localeCompare_antisym :
  forall a b, (0 < localeCompare a b)%Z -> (localeCompare b a < 0)%Z.
Hypothesis localeCompare_trans :
  forall a b c, (localeCompare a b <= 0)%Z -> (localeCompare b c <= 0)%Z ->
                (localeCompare a c <= 0)%Z.

Lemma insert_by_hd (y x : SensorGroup.t) (l : list SensorGroup.t) :
  HdRel (loc_le localeCompare) y l -> loc_le localeCompare y x ->
  HdRel (loc_le localeCompare) y (insert_by localeCompare x l).
Proof.
  intros Hh Hyx. destruct l as [|z l]; simpl; [constructor; exact Hyx|].
  destruct (Z.ltb 0 _); constructor; [exact Hyx|]. inversion Hh; assumption.
Qed.

Lemma insert_by_sorted (x : SensorGroup.t) (l : list SensorGroup.t) :
  Sorted (loc_le localeCompare) l -> Sorted (loc_le localeCompare) (insert_by localeCompare x l).
Proof.
  induction 1 as [|y l Hs IH Hh]; simpl; [repeat constructor|].
  destruct (Z.ltb_spec 0 (localeCompare (SensorGroup.location y) (SensorGroup.location x)))
    as [Hlt|Hge].
  - constructor; [constructor; assumption|]. constructor.
    unfold loc_le. specialize (localeCompare_antisym _ _ Hlt). lia.
  - constructor; [exact IH|]. apply insert_by_hd; [exact Hh|]. unfold loc_le. lia.
Qed.

Lemma sort_groups_sorted_acc (l acc : list SensorGroup.t) :
  Sorted (loc_le localeCompare) acc ->
  Sorted (loc_le localeCompare) (fold_left (fun acc x => insert_by localeCompare x acc) l acc).
Proof.
  revert acc; induction l as [|x l IH]; intros acc Hs; simpl; [exact Hs|].
  apply IH. apply insert_by_sorted. exact Hs.
Qed.

(** C9: the aggregator returns the map's groups reordered by nothing but
    the stable sort on [a.location.localeCompare(b.location)]: the result
    is a permutation of the groups of the loop, in which every group's
    location compares at most equal to every later group's location.  The
    order is that of [localeCompare], taken here as any comparator that is
    antisymmetric in sign and transitive, as ECMA-262 requires of it. *)
Theorem groupSensorsByLocation_sorted_by_location (sensors : list Sensor.t)
  (latestReadings : LatestReadings) :
  StronglySorted (loc_le localeCompare) (groupSensorsByLocation localeCompare sensors latestReadings)
  /\ Permutation (groupSensorsByLocation localeCompare sensors latestReadings)
                 (group_loop latestReadings sensors).
Proof.
  split; [|apply sort_groups_perm].
  apply Sorted_StronglySorted.
  - intros a b c Hab Hbc. unfold loc_le in *. eapply localeCompare_trans; eassumption.
  - unfold groupSensorsByLocation, sort_groups. apply sort_groups_sorted_acc. constructor.
Qed.

End SortFacts.


Lemma lex_cmp_antisym (a b : list nat) : lex_cmp b a = CompOpp (lex_cmp a b).
Proof.
  revert b; induction a as [|x a IH]; intros [|y b]; simpl; try reflexivity.
  rewrite (Nat.compare_antisym x y). destruct (Nat.compare x y); simpl; auto.
Qed.

Lemma lex_cmp_trans (a b c : list nat) :
  lex_cmp a b <> Gt -> lex_cmp b c <> Gt -> lex_cmp a c <> Gt.
Proof.
  revert b c; induction a as [|x a IH]; intros b c.
  - destruct c; simpl; discriminate.
  - destruct b as [|y b]; [simpl; congruence|].
    destruct c as [|z c]; [simpl; congruence|]. simpl.
    destruct (Nat.compare_spec x y) as [Hxy|Hxy|Hxy];
      destruct (Nat.compare_spec y z) as [Hyz|Hyz|Hyz];
      destruct (Nat.compare_spec x z) as [Hxz|Hxz|Hxz];
      try congruence; try lia.
    apply IH.
Qed.

Lemma letters_collation_antisym (a b : string) :
  (0 < letters_collation a b)%Z -> (letters_collation b a < 0)%Z.
Proof.
  unfold letters_collation. rewrite (lex_cmp_antisym (collation_key a)).
  destruct (lex_cmp (collation_key a) (collation_key b)); simpl; lia.
Qed.

Lemma letters_collation_trans (a b c : string) :
  (letters_collation a b <= 0)%Z -> (letters_collation b c <= 0)%Z ->
  (letters_collation a c <= 0)%Z.
Proof.
  unfold letters_collation. intros Hab Hbc.
  assert (H : lex_cmp (collation_key a) (collation_key c) <> Gt).
  { apply (lex_cmp_trans _ (collation_key b)).
    - destruct (lex_cmp (collation_key a) (collation_key b)); lia || discriminate.
    - destruct (lex_cmp (collation_key b) (collation_key c)); lia || discriminate. }
  destruct (lex_cmp (collation_key a) (collation_key c)); lia || congruence.
Qed.

(** C9 (counterexample): the order is the locale collation of
    [localeCompare], not code-unit order: the groups "Arbeitszimmer",
    "bad" and "Zimmer" come out in that order, while in code-unit order
    "Zimmer" comes before "bad". *)
Lemma groupSensorsByLocation_not_code_unit_order :
  map SensorGroup.location (groupSensorsByLocation letters_collation room_sensors room_readings)
  = ["Arbeitszimmer"; "bad"; "Zimmer"]
  /\ String.compare "Zimmer" "bad" = Lt
  /\ ~ Sorted (fun a b => String.compare a b <> Gt)
         (map SensorGroup.location
            (groupSensorsByLocation letters_collation room_sensors room_readings)).
Proof.
  assert (H : map SensorGroup.location
                (groupSensorsByLocation letters_collation room_sensors room_readings)
              = ["Arbeitszimmer"; "bad"; "Zimmer"]) by (vm_compute; reflexivity).
  split; [exact H|split; [reflexivity|]].
  rewrite H. intros Hs. inversion Hs as [|? ? Hs' _]; subst.
  inversion Hs' as [|? ? _ Hh]; subst. inversion Hh as [|? ? Hc]; subst.
  apply Hc. reflexivity.
Qed.

Lemma groupSensorsByLocation_sorted_by_location_witness :
  StronglySorted (loc_le letters_collation)
    (groupSensorsByLocation letters_collation room_sensors room_readings)
  /\ Permutation (groupSensorsByLocation letters_collation room_sensors room_readings)
                 (group_loop room_readings room_sensors)
  /\ map SensorGroup.location (groupSensorsByLocation letters_collation room_sensors room_readings)
     = ["Arbeitszimmer"; "bad"; "Zimmer"].
Proof.
  split; [|split; [|vm_compute; reflexivity]];
  apply (groupSensorsByLocation_sorted_by_location letters_collation
           letters_collation_antisym letters_collation_trans).
Defined.

(** ** Location aggregator: what each group holds *)

Section GroupFacts.

Variable localeCompare : string -> string -> Z.
Variable latestReadings : LatestReadings.

Lemma in_result_members (sensors : list Sensor.t) (g : SensorGroup.t) :
  In g (groupSensorsByLocation localeCompare sensors latestReadings) ->
  exists m ms, members sensors (SensorGroup.location g) = m :: ms
    /\ g = fold_left (fun g s => update_group latestReadings s g) (m :: ms) (new_group (SensorGroup.location g) m).
Proof.
  intros Hin. apply in_groupSensorsByLocation in Hin.
  destruct (members sensors (SensorGroup.location g)) as [|m ms]; [discriminate|].
  exists m, ms. split; [reflexivity|]. simpl in Hin. injection Hin as Hg. symmetry. exact Hg.
Qed.

Lemma update_group_status (s : Sensor.t) (g : SensorGroup.t) :
  SensorGroup.status (update_group latestReadings s g) =
  match Sensor.status s with
  | error => error
  | offline => if status_eqb (SensorGroup.status g) error then error else offline
  | online => SensorGroup.status g
  end.
Proof.
  unfold update_group.
  destruct (truthy _); [destruct (getSensorDataType _) as [[]|]|]; reflexivity.
Qed.

Lemma fold_status (ms : list Sensor.t) (g : SensorGroup.t) :
  SensorGroup.status (fold_left (fun g s => update_group latestReadings s g) ms g)
  = status_by_precedence (SensorGroup.status g :: map Sensor.status ms).
Proof.
  revert g; induction ms as [|s ms IH]; intros g; simpl.
  - destruct (SensorGroup.status g); reflexivity.
  - rewrite IH, update_group_status. unfold status_by_precedence. simpl.
    destruct (Sensor.status s), (SensorGroup.status g); simpl; reflexivity.
Qed.

Lemma status_by_precedence_dup (x : SensorStatus) (l : list SensorStatus) :
  status_by_precedence (x :: x :: l) = status_by_precedence (x :: l).
Proof. unfold status_by_precedence. destruct x; reflexivity. Qed.

Lemma existsb_perm {A : Type} (f : A -> bool) (l l' : list A) :
  Permutation l l' -> existsb f l = existsb f l'.
Proof.
  induction 1; simpl; try congruence.
  destruct (f x), (f y); reflexivity.
Qed.

Lemma status_by_precedence_perm (l l' : list SensorStatus) :
  Permutation l l' -> status_by_precedence l = status_by_precedence l'.
Proof.
  intros H. unfold status_by_precedence.
  rewrite (existsb_perm _ _ _ H), (existsb_perm (status_eqb offline) _ _ H). reflexivity.
Qed.

Lemma filter_perm {A : Type} (f : A -> bool) (l l' : list A) :
  Permutation l l' -> Permutation (filter f l) (filter f l').
Proof.
  induction 1; simpl.
  - constructor.
  - destruct (f x); [constructor|]; assumption.
  - destruct (f x), (f y); try constructor; reflexivity.
  - etransitivity; eassumption.
Qed.

Lemma group_status_members (sensors : list Sensor.t) (g : SensorGroup.t) :
  In g (groupSensorsByLocation localeCompare sensors latestReadings) ->
  SensorGroup.status g
  = status_by_precedence (map Sensor.status (members sensors (SensorGroup.location g))).
Proof.
  intros Hin. destruct (in_result_members _ _ Hin) as [m [ms [Hm Hg]]].
  rewrite Hm. rewrite Hg at 1. rewrite fold_status. simpl.
  apply status_by_precedence_dup.
Qed.

(** C2: a produced group's status is [error] if some member is [error],
    else [offline] if some member is [offline], else [online]; and running
    the aggregator on the sensors in any other order gives the group of
    the same location the same status. *)
Theorem group_status_precedence (sensors : list Sensor.t) (g : SensorGroup.t) :
  In g (groupSensorsByLocation localeCompare sensors latestReadings) ->
  SensorGroup.status g
  = status_by_precedence (map Sensor.status (members sensors (SensorGroup.location g)))
  /\ forall sensors' g',
       Permutation sensors sensors' ->
       In g' (groupSensorsByLocation localeCompare sensors' latestReadings) ->
       SensorGroup.location g' = SensorGroup.location g ->
       SensorGroup.status g' = SensorGroup.status g.
Proof.
  intros Hin. split; [apply group_status_members; exact Hin|].
  intros sensors' g' Hp Hin' Hl.
  rewrite (group_status_members _ _ Hin), (group_status_members _ _ Hin'), Hl.
  apply status_by_precedence_perm. apply Permutation_map.
  symmetry. apply filter_perm. exact Hp.
Qed.

Lemma fold_sensorIds (ms : list Sensor.t) (g : SensorGroup.t) :
  SensorGroup.sensorIds (fold_left (fun g s => update_group latestReadings s g) ms g) = SensorGroup.sensorIds g ++ map Sensor.id ms.
Proof.
  revert g; induction ms as [|s ms IH]; intros g; simpl; [rewrite app_nil_r; reflexivity|].
  rewrite IH. unfold update_group.
  destruct (truthy _); [destruct (getSensorDataType _) as [[]|]|]; simpl;
    rewrite <- app_assoc; reflexivity.
Qed.

Lemma group_sensorIds_members (sensors : list Sensor.t) (g : SensorGroup.t) :
  In g (groupSensorsByLocation localeCompare sensors latestReadings) ->
  SensorGroup.sensorIds g = map Sensor.id (members sensors (SensorGroup.location g)).
Proof.
  intros Hin. destruct (in_result_members _ _ Hin) as [m [ms [Hm Hg]]].
  rewrite Hm. rewrite Hg at 1. rewrite fold_sensorIds. reflexivity.
Qed.

Lemma NoDup_map_same {A B : Type} (f : A -> B) (l : list A) (a b : A) :
  NoDup (map f l) -> In a l -> In b l -> f a = f b -> a = b.
Proof.
  induction l as [|x l IH]; simpl; [tauto|].
  intros Hnd Ha Hb Hab. inversion Hnd as [|y l' Hnot Hnd']; subst.
  destruct Ha as [<-|Ha], Hb as [<-|Hb]; auto.
  - exfalso. apply Hnot. rewrite Hab. apply in_map. exact Hb.
  - exfalso. apply Hnot. rewrite <- Hab. apply in_map. exact Ha.
Qed.

Lemma members_not_device (sensors : list Sensor.t) (loc : string) (m : Sensor.t) :
  In m (members sensors loc) ->
  In m sensors /\ extractLocation (Sensor.friendlyName m) = loc /\ isDeviceName loc = false.
Proof.
  unfold members, member_of. intros H. apply filter_In in H as [Hin H].
  apply andb_true_iff in H as [Hd He]. apply String.eqb_eq in He.
  rewrite <- He. apply negb_true_iff in Hd. auto.
Qed.

(** C6: a sensor whose extracted location is recognised as a device name
    (as for the sensor named "IKEA of Sweden RODRET Dimmer Battery") gives
    no group of its own, and, sensor identifiers being unique (they are
    the primary key of the sensors table), its identifier is in no group's
    member list. *)
Theorem device_named_sensor_discarded (sensors : list Sensor.t) (s : Sensor.t) :
  NoDup (map Sensor.id sensors) -> In s sensors ->
  isDeviceName (extractLocation (Sensor.friendlyName s)) = true ->
  isDeviceName (extractLocation ikea_name) = true
  /\ forall g, In g (groupSensorsByLocation localeCompare sensors latestReadings) ->
       SensorGroup.location g <> extractLocation (Sensor.friendlyName s)
       /\ ~ In (Sensor.id s) (SensorGroup.sensorIds g).
Proof.
  intros Hnd Hs Hdev. split; [vm_compute; reflexivity|].
  intros g Hin. destruct (in_result_members _ _ Hin) as [m [ms [Hm _]]].
  assert (Hmm : In m (members sensors (SensorGroup.location g))) by (rewrite Hm; left; reflexivity).
  destruct (members_not_device _ _ _ Hmm) as [_ [_ Hnot]].
  split.
  - intros Hl. rewrite Hl, Hdev in Hnot. discriminate.
  - rewrite (group_sensorIds_members _ _ Hin). intros Hid.
    apply in_map_iff in Hid as [x [Hx Hxin]].
    destruct (members_not_device _ _ _ Hxin) as [Hxs [Hxl Hxd]].
    assert (x = s) by (eapply NoDup_map_same; eassumption). subst x.
    rewrite Hxl in Hdev. congruence.
Qed.

End GroupFacts.

Section GroupValues.

Variable localeCompare : string -> string -> Z.
Variable latestReadings : LatestReadings.

Lemma update_group_value (k : DataType) (s : Sensor.t) (g : SensorGroup.t) :
  group_value k (update_group latestReadings s g) =
  if has_kind k s && truthy (record_get latestReadings (Sensor.id s))
  then value_of k (record_get latestReadings (Sensor.id s))
  else group_value k g.
Proof.
  unfold update_group, has_kind.
  destruct (truthy (record_get latestReadings (Sensor.id s)));
    destruct (getSensorDataType (Sensor.friendlyName s)) as [[]|]; destruct k; reflexivity.
Qed.

Lemma fold_value_skip (k : DataType) (ms : list Sensor.t) (g : SensorGroup.t) :
  (forall s, In s ms -> has_kind k s = false) ->
  group_value k (fold_left (fun g s => update_group latestReadings s g) ms g) = group_value k g.
Proof.
  revert g; induction ms as [|s ms IH]; intros g H; simpl; [reflexivity|].
  rewrite IH; [|intros x Hx; apply H; right; exact Hx].
  rewrite update_group_value, (H s (or_introl eq_refl)). reflexivity.
Qed.

Lemma filter_nil_false {A : Type} (f : A -> bool) (l : list A) :
  filter f l = [] -> forall x, In x l -> f x = false.
Proof.
  intros H x Hx. destruct (f x) eqn:E; [|reflexivity].
  assert (In x (filter f l)) by (apply filter_In; auto). rewrite H in *. destruct H0.
Qed.

Lemma filter_snoc_split {A : Type} (f : A -> bool) (l pre : list A) (s : A) :
  filter f l = pre ++ [s] ->
  exists a b, l = a ++ s :: b /\ filter f a = pre /\ filter f b = [].
Proof.
  revert pre; induction l as [|x l IH]; intros pre H; simpl in H.
  - destruct pre; discriminate.
  - destruct (f x) eqn:E.
    + destruct pre as [|p pre]; simpl in H; injection H as Hx Hl.
      * subst x. exists [], l. split; [reflexivity|]. split; [reflexivity|exact Hl].
      * subst p. destruct (IH pre Hl) as [a [b [-> [Ha Hb]]]].
        exists (x :: a), b. simpl. rewrite E, Ha. auto.
    + destruct (IH pre H) as [a [b [-> [Ha Hb]]]].
      exists (x :: a), b. simpl. rewrite E, Ha. auto.
Qed.

Lemma group_value_members (sensors : list Sensor.t) (g : SensorGroup.t) (k : DataType)
  (pre : list Sensor.t) (s : Sensor.t) :
  In g (groupSensorsByLocation localeCompare sensors latestReadings) ->
  filter (has_kind k) (members sensors (SensorGroup.location g)) = pre ++ [s] ->
  exists g0,
    group_value k g =
    (if truthy (record_get latestReadings (Sensor.id s))
     then value_of k (record_get latestReadings (Sensor.id s))
     else group_value k g0)
    /\ (pre = [] -> group_value k g0 = None).
Proof.
  intros Hin Hf.
  destruct (in_result_members localeCompare latestReadings _ _ Hin) as [m [ms [Hm Hg]]].
  rewrite Hm in Hf. destruct (filter_snoc_split _ _ _ _ Hf) as [a [b [Hab [Ha Hb]]]].
  assert (Hk : has_kind k s = true).
  { assert (In s (filter (has_kind k) (m :: ms))) as Hs
      by (rewrite Hf; apply in_or_app; right; left; reflexivity).
    apply filter_In in Hs as [_ Hs]. exact Hs. }
  set (g0 := new_group (SensorGroup.location g) m) in Hg.
  exists (fold_left (fun g s => update_group latestReadings s g) a g0).
  rewrite Hg at 1. rewrite Hab, fold_left_app. simpl.
  rewrite fold_value_skip; [|apply filter_nil_false; exact Hb].
  rewrite update_group_value, Hk. split; [reflexivity|].
  intros ->. rewrite fold_value_skip; [destruct k; reflexivity|].
  apply filter_nil_false. exact Ha.
Qed.

(** C8: in every group, the value shown for a data kind (temperature,
    humidity or battery, after [getSensorDataType] of the sensor's name)
    is [undefined] when the group has no member of that kind, and, when it
    has one member of that kind, is that member's latest reading's field
    if the member has a latest reading and [undefined] otherwise; the
    battery value is read from the reading's humidity field. *)
Theorem group_value_from_kind_member (sensors : list Sensor.t) (g : SensorGroup.t)
  (k : DataType) :
  In g (groupSensorsByLocation localeCompare sensors latestReadings) ->
  (filter (has_kind k) (members sensors (SensorGroup.location g)) = [] ->
     group_value k g = None)
  /\ (forall s, filter (has_kind k) (members sensors (SensorGroup.location g)) = [s] ->
     group_value k g =
       match record_get latestReadings (Sensor.id s) with
       | Own r =>
           match k with
           | DTtemperature => SensorReading.temperature r
           | DThumidity => SensorReading.humidity r
           | DTbattery => SensorReading.humidity r
           end
       | _ => None
       end).
Proof.
  intros Hin. split.
  - intros Hf. destruct (in_result_members localeCompare latestReadings _ _ Hin) as [m [ms [Hm Hg]]].
    rewrite Hg. rewrite Hm in Hf. rewrite fold_value_skip; [destruct k; reflexivity|].
    apply filter_nil_false. exact Hf.
  - intros s Hf. change [s] with ([] ++ [s]) in Hf.
    destruct (group_value_members _ _ _ _ _ Hin Hf) as [g0 [-> H0]].
    rewrite (H0 eq_refl).
    destruct (record_get latestReadings (Sensor.id s)); destruct k; reflexivity.
Qed.

(** C10: when several members of a group share a data kind, the group's
    value for that kind is the field of the latest reading of the last such
    member in input order, as soon as that member has a latest reading,
    whatever the earlier ones hold; if that reading lacks the field the
    value is [undefined].  So the value depends on the input order: for two
    "Büro" temperature sensors whose readings are 21.5 and "no
    temperature", the group shows nothing in one order and 21.5 in the
    other. *)
Theorem group_value_last_member_wins (sensors : list Sensor.t) (g : SensorGroup.t)
  (k : DataType) (pre : list Sensor.t) (s : Sensor.t) (r : SensorReading.t) :
  In g (groupSensorsByLocation localeCompare sensors latestReadings) ->
  filter (has_kind k) (members sensors (SensorGroup.location g)) = pre ++ [s] ->
  record_get latestReadings (Sensor.id s) = Own r ->
  group_value k g =
    match k with
    | DTtemperature => SensorReading.temperature r
    | DThumidity => SensorReading.humidity r
    | DTbattery => SensorReading.humidity r
    end
  /\ map SensorGroup.temperature
       (groupSensorsByLocation localeCompare [buero_temp_a; buero_temp_b] buero_readings)
     = [None]
  /\ map SensorGroup.temperature
       (groupSensorsByLocation localeCompare [buero_temp_b; buero_temp_a] buero_readings)
     = [Some 215%Z].
Proof.
  intros Hin Hf Hr. split; [|split; vm_compute; reflexivity].
  destruct (group_value_members _ _ _ _ _ Hin Hf) as [g0 [-> _]].
  rewrite Hr. destruct k; reflexivity.
Qed.

End GroupValues.

(** ** Location extraction *)

Module StringFacts.

Lemma length_append (a b : string) : Js.length (a ++ b)%string = Js.length a + Js.length b.
Proof. induction a as [|c a IH]; simpl; [reflexivity|]. rewrite IH. reflexivity. Qed.

Lemma drop_append_le (j : nat) (a b : string) :
  j <= Js.length a -> drop j (a ++ b)%string = (drop j a ++ b)%string.
Proof.
  revert j; induction a as [|c a IH]; intros j Hj; simpl in *.
  - assert (j = 0) as -> by lia. reflexivity.
  - destruct j; simpl; [reflexivity|]. apply IH. lia.
Qed.

Lemma drop_append_len (k : nat) (a b : string) :
  drop (Js.length a + k) (a ++ b)%string = drop k b.
Proof. induction a as [|c a IH]; simpl; [reflexivity|]. exact IH. Qed.

Lemma drop_lt (j : nat) (a : string) :
  j < Js.length a -> exists d t, drop j a = String d t.
Proof.
  revert j; induction a as [|c a IH]; intros j Hj; simpl in *; [lia|].
  destruct j; simpl; [eauto|]. apply IH. lia.
Qed.


Lemma starts_with_space_free (y t z : string) :
  space_free y = true ->
  starts_with y (t ++ String " "%char z)%string = starts_with y t.
Proof.
  revert t; induction y as [|c y IH]; intros t Hy; [destruct t; reflexivity|].
  simpl in Hy. apply andb_true_iff in Hy as [Hc Hy].
  destruct t as [|d t]; simpl.
  - apply negb_true_iff in Hc. rewrite Hc. reflexivity.
  - rewrite IH by exact Hy. reflexivity.
Qed.

Lemma space_free_drop (k : nat) (w : string) :
  space_free w = true -> space_free (drop k w) = true.
Proof.
  revert k; induction w as [|c w IH]; intros k Hw; destruct k; simpl in *; auto.
  apply andb_true_iff in Hw as [_ Hw]. apply IH. exact Hw.
Qed.

Lemma starts_with_space_head (x u : string) :
  space_free u = true -> starts_with (String " "%char x) u = false.
Proof.
  destruct u as [|d u]; [reflexivity|].
  intros H. simpl in H. apply andb_true_iff in H as [H _]. apply negb_true_iff in H.
  change (Ascii.eqb " "%char d && starts_with x u = false).
  rewrite Ascii.eqb_sym, H. reflexivity.
Qed.

Lemma includes_false (s pat : string) (j : nat) :
  includes s pat = false -> j <= Js.length s -> occurs_at s pat j = false.
Proof.
  unfold includes. intros H Hj. destruct (occurs_at s pat j) eqn:E; [|reflexivity].
  exfalso. assert (existsb (occurs_at s pat) (seq 0 (S (Js.length s))) = true) as Hc.
  { apply existsb_exists. exists j. split; [apply in_seq; lia|exact E]. }
  congruence.
Qed.

Lemma last_from_none (s pat : string) (i : nat) :
  (forall j, j <= i -> occurs_at s pat j = false) -> last_from s pat i = None.
Proof.
  induction i as [|i IH]; intros H; simpl; rewrite H by lia; [reflexivity|].
  apply IH. intros j Hj. apply H. lia.
Qed.

Lemma last_from_single (s pat : string) (n i : nat) (c : bool) :
  (forall j, occurs_at s pat j = ((j =? n) && c)) -> n <= i ->
  last_from s pat i = if c then Some n else None.
Proof.
  intros H Hn. destruct c.
  - induction i as [|i IH]; simpl; rewrite H.
    + assert (n = 0) as -> by lia. reflexivity.
    + destruct (Nat.eqb_spec (S i) n) as [<-|Hne]; [reflexivity|]. apply IH. lia.
  - apply last_from_none. intros j _. rewrite H, andb_false_r. reflexivity.
Qed.

(** where " x" occurs in "loc w" when loc has no " x" and x, w no space *)
Lemma occurs_at_suffixed (loc w x : string) (j : nat) :
  space_free x = true -> space_free w = true ->
  includes loc (String " "%char x) = false ->
  occurs_at (loc ++ String " "%char w)%string (String " "%char x) j
  = ((j =? Js.length loc) && starts_with x w).
Proof.
  intros Hx Hw Hl. unfold occurs_at.
  destruct (Nat.lt_trichotomy j (Js.length loc)) as [Hlt|[->|Hgt]].
  - rewrite drop_append_le by lia.
    destruct (drop_lt _ _ Hlt) as [d [t Hd]]. rewrite Hd. simpl.
    rewrite starts_with_space_free by exact Hx.
    assert (Hj : (j =? Js.length loc) = false) by (apply Nat.eqb_neq; lia). rewrite Hj.
    pose proof (includes_false _ _ j Hl ltac:(lia)) as Ho.
    unfold occurs_at in Ho. rewrite Hd in Ho. exact Ho.
  - rewrite <- (Nat.add_0_r (Js.length loc)) at 1. rewrite drop_append_len.
    simpl. rewrite Nat.eqb_refl. reflexivity.
  - replace j with (Js.length loc + S (j - Js.length loc - 1)) by lia.
    rewrite drop_append_len. simpl.
    assert (Hj : (Js.length loc + S (j - Js.length loc - 1) =? Js.length loc) = false)
      by (apply Nat.eqb_neq; lia). rewrite Hj.
    apply starts_with_space_head, space_free_drop. exact Hw.
Qed.

Lemma lastIndexOf_suffixed (loc w x : string) :
  space_free x = true -> space_free w = true ->
  includes loc (String " "%char x) = false ->
  lastIndexOf (loc ++ String " "%char w)%string (String " "%char x)
  = if starts_with x w then Some (Js.length loc) else None.
Proof.
  intros Hx Hw Hl. unfold lastIndexOf.
  apply last_from_single.
  - intros j. apply occurs_at_suffixed; assumption.
  - rewrite length_append. simpl. lia.
Qed.

Lemma lastIndexOf_absent (name pat : string) :
  includes name pat = false -> lastIndexOf name pat = None.
Proof.
  intros H. unfold lastIndexOf. apply last_from_none.
  intros j Hj. apply includes_false; assumption.
Qed.

End StringFacts.

Lemma suffixes_space_free (x : string) : In x suffixes -> space_free x = true.
Proof. simpl. intros H. repeat destruct H as [<-|H]; [..|destruct H]; reflexivity. Qed.

Lemma suffixes_prefix_free (x w : string) :
  In x suffixes -> In w suffixes -> starts_with x w = String.eqb x w.
Proof.
  simpl. intros Hx Hw.
  repeat destruct Hx as [<-|Hx]; try destruct Hx;
    repeat destruct Hw as [<-|Hw]; try destruct Hw; reflexivity.
Qed.

Lemma extract_loop_first (name : string) (sfx : list string) (n : nat) (w : string) :
  In w sfx ->
  (forall x, In x sfx -> lastIndexOf name (" " ++ x)%string
                         = if String.eqb x w then Some n else None) ->
  extract_loop name sfx = trim (take n name).
Proof.
  induction sfx as [|x sfx IH]; intros Hw H; simpl; [destruct Hw|].
  pose proof (H x (or_introl eq_refl)) as Hx. simpl in Hx. rewrite Hx.
  destruct (String.eqb_spec x w) as [->|Hne]; [reflexivity|].
  apply IH; [destruct Hw as [<-|Hw]; [congruence|exact Hw]|].
  intros y Hy. apply H. right. exact Hy.
Qed.
















(** ** Witnesses *)

Lemma example_group_in : In example_group example_groups.
Proof. vm_compute. left. reflexivity. Qed.

Lemma group_status_precedence_witness :
  In example_group example_groups /\ SensorGroup.status example_group = error.
Proof.
  split; [exact example_group_in|].
  destruct (group_status_precedence compare_by_length example_readings example_sensors
              example_group example_group_in) as [H _].
  rewrite H. vm_compute. reflexivity.
Defined.

Lemma device_named_sensor_discarded_witness :
  NoDup (map Sensor.id example_sensors) /\ In ikea_sensor example_sensors
  /\ isDeviceName (extractLocation (Sensor.friendlyName ikea_sensor)) = true
  /\ forall g, In g example_groups ->
       ~ In (Sensor.id ikea_sensor) (SensorGroup.sensorIds g).
Proof.
  assert (Hnd : NoDup (map Sensor.id example_sensors)).
  { vm_compute. repeat constructor; simpl; intros H;
      repeat destruct H as [H|H]; try discriminate; contradiction. }
  assert (Hin : In ikea_sensor example_sensors) by (right; right; left; reflexivity).
  assert (Hdev : isDeviceName (extractLocation (Sensor.friendlyName ikea_sensor)) = true)
    by (vm_compute; reflexivity).
  split; [exact Hnd|]. split; [exact Hin|]. split; [exact Hdev|].
  intros g Hg.
  destruct (device_named_sensor_discarded compare_by_length example_readings example_sensors
              ikea_sensor Hnd Hin Hdev) as [_ H].
  apply (H g Hg).
Defined.

Lemma group_value_from_kind_member_witness :
  In example_group example_groups
  /\ group_value DTtemperature example_group = Some 220%Z
  /\ group_value DTbattery example_group = None.
Proof.
  split; [exact example_group_in|].
  destruct (group_value_from_kind_member compare_by_length example_readings example_sensors
              example_group DTtemperature example_group_in) as [_ Ht].
  destruct (group_value_from_kind_member compare_by_length example_readings example_sensors
              example_group DTbattery example_group_in) as [Hb _].
  split.
  - rewrite (Ht (buero_temp_sensor 10 online)) by (vm_compute; reflexivity).
    vm_compute. reflexivity.
  - apply Hb. vm_compute. reflexivity.
Defined.

Lemma group_value_last_member_wins_witness :
  In (hd (new_group "" ikea_sensor) two_temp_groups) two_temp_groups
  /\ group_value DTtemperature (hd (new_group "" ikea_sensor) two_temp_groups) = None.
Proof.
  assert (Hin : In (hd (new_group "" ikea_sensor) two_temp_groups) two_temp_groups)
    by (vm_compute; left; reflexivity).
  split; [exact Hin|].
  destruct (group_value_last_member_wins compare_by_length buero_readings
              [buero_temp_a; buero_temp_b] _ DTtemperature [buero_temp_a] buero_temp_b
              (SensorReading.mk "buero_temp_b" 0 None (Some 40%Z)) Hin)
    as [H _]; [vm_compute; reflexivity|vm_compute; reflexivity|].
  exact H.
Defined.

(** ** Sensor discovery *)

Lemma starts_with_split (p s : string) :
  starts_with p s = true -> s = (p ++ drop (length p) s)%string.
Proof.
  revert s; induction p as [|c p IH]; intros s H; [reflexivity|].
  destruct s as [|d s]; [discriminate|].
  simpl in H. apply andb_prop in H as [Hc Hs].
  apply Ascii.eqb_eq in Hc; subst d. simpl. f_equal. apply IH, Hs.
Qed.

Lemma replace_prefix (p s : string) :
  starts_with p s = true -> replace s p "" = drop (length p) s.
Proof.
  intros H. unfold replace, indexOf. simpl.
  unfold occurs_at. simpl. rewrite H. reflexivity.
Qed.

Lemma discoverSensors_resolved (states : list HomeAssistantState.t) (newDate : string -> Z) :
  SensorDiscovery.discoverSensors (Resolved states) newDate
  = Resolved (flat_map option_list
                (map (SensorDiscovery.mapStateToSensor newDate)
                   (filter (fun state => starts_with "sensor." (HomeAssistantState.entity_id state))
                      states))).
Proof. reflexivity. Qed.

Lemma discover_forall2 (states : list HomeAssistantState.t) (newDate : string -> Z) :
  Forall2 (discovered_from newDate)
    (flat_map option_list
       (map (SensorDiscovery.mapStateToSensor newDate)
          (filter (fun state => starts_with "sensor." (HomeAssistantState.entity_id state))
             states)))
    (filter (fun state => starts_with "sensor." (HomeAssistantState.entity_id state)
                          && isSome (getSensorType state)) states).
Proof.
  induction states as [|st states IH]; [constructor|].
  cbn [filter]. destruct (starts_with "sensor." (HomeAssistantState.entity_id st)) eqn:Hp.
  - unfold SensorDiscovery.mapStateToSensor at 1. cbn [map flat_map andb].
    destruct (getSensorType st) as [ty|] eqn:Ht; cbn [isSome option_list app]; [|exact IH].
    constructor; [|exact IH].
    unfold discovered_from; cbn.
    rewrite (replace_prefix _ _ Hp). repeat split; auto.
  - exact IH.
Qed.

Lemma Forall2_map_eq {A B C : Type} (R : A -> B -> Prop) (f : A -> C) (g : B -> C) xs ys :
  Forall2 R xs ys -> (forall x y, R x y -> f x = g y) -> map f xs = map g ys.
Proof. induction 1 as [|x y xs ys Hxy _ IH]; intros Hfg; simpl; [reflexivity|]. f_equal; auto. Qed.

Lemma NoDup_map_filter {A B : Type} (f : A -> B) (p : A -> bool) l :
  NoDup (map f l) -> NoDup (map f (filter p l)).
Proof.
  induction l as [|x l IH]; simpl; intros H; [constructor|].
  inversion H as [|? ? Hn Hd]; subst.
  destruct (p x); simpl; [|auto].
  constructor; [|auto].
  intros Hin; apply Hn. apply in_map_iff in Hin as (y & Hy & Hy').
  apply filter_In in Hy' as [Hy' _]. rewrite <- Hy. apply in_map, Hy'.
Qed.

Lemma NoDup_map_inj_on {A B C : Type} (f : A -> B) (g : A -> C) l :
  NoDup (map f l) ->
  (forall x y, In x l -> In y l -> g x = g y -> f x = f y) ->
  NoDup (map g l).
Proof.
  induction l as [|x l IH]; simpl; intros H Hinj; [constructor|].
  inversion H as [|? ? Hn Hd]; subst.
  constructor.
  - intros Hin. apply in_map_iff in Hin as (y & Hy & Hy').
    apply Hn. rewrite (Hinj x y); auto. apply in_map, Hy'.
  - apply IH; auto.
Qed.

(** X1: discovery keeps exactly the states whose entity id starts with
    "sensor." and whose kind is recognised, in order, and builds each
    sensor from its state: the id is the entity id without the prefix, the
    name falls back to the entity id, the unit to "", the status is online.
    A failed state query is passed on. *)
Theorem discoverSensors_maps_sensor_states (states : list HomeAssistantState.t)
    (newDate : string -> Z) :
  (forall e, SensorDiscovery.discoverSensors (Rejected e) newDate = Rejected e)
  /\ exists sensors,
       SensorDiscovery.discoverSensors (Resolved states) newDate = Resolved sensors
       /\ Forall2 (discovered_from newDate) sensors
            (filter (fun state => starts_with "sensor." (HomeAssistantState.entity_id state)
                                  && isSome (getSensorType state)) states).
Proof.
  split; [reflexivity|].
  eexists; split; [apply discoverSensors_resolved|apply discover_forall2].
Qed.

(** X2: distinct entity ids give discovered sensors distinct ids, so none
    overwrites another in the sensors table. *)
Theorem discoverSensors_ids_distinct (states : list HomeAssistantState.t)
    (newDate : string -> Z) (sensors : list Sensor.t) :
  NoDup (map HomeAssistantState.entity_id states) ->
  SensorDiscovery.discoverSensors (Resolved states) newDate = Resolved sensors ->
  NoDup (map Sensor.id sensors).
Proof.
  intros Hnd Hd. rewrite discoverSensors_resolved in Hd.
  assert (Hs : flat_map option_list
                 (map (SensorDiscovery.mapStateToSensor newDate)
                    (filter (fun state => starts_with "sensor." (HomeAssistantState.entity_id state))
                       states)) = sensors) by congruence.
  rewrite <- Hs; clear Hd Hs.
  pose proof (discover_forall2 states newDate) as HF.
  set (pf := fun state => starts_with "sensor." (HomeAssistantState.entity_id state)
                          && isSome (getSensorType state)) in HF.
  rewrite (Forall2_map_eq _ Sensor.id (fun st => drop 7 (HomeAssistantState.entity_id st)) _ _ HF)
    by (intros x y (_ & Hid & _); exact Hid).
  apply (NoDup_map_inj_on HomeAssistantState.entity_id).
  - apply NoDup_map_filter, Hnd.
  - intros x y Hx Hy Hxy.
    apply filter_In in Hx as [_ Hx]; apply filter_In in Hy as [_ Hy].
    unfold pf in Hx, Hy. apply andb_prop in Hx as [Hx _]; apply andb_prop in Hy as [Hy _].
    rewrite (starts_with_split _ _ Hx), (starts_with_split _ _ Hy).
    cbn [length]. rewrite Hxy. reflexivity.
Qed.

(** ** The sensors table *)

Lemma find_map_same {A : Type} (p : A -> bool) (f : A -> A) (l : list A) :
  (forall x, p (f x) = p x) -> find p (map f l) = option_map f (find p l).
Proof.
  intros Hp; induction l as [|x l IH]; simpl; [reflexivity|].
  rewrite Hp. destruct (p x); [reflexivity|exact IH].
Qed.

Lemma find_app {A : Type} (p : A -> bool) (l1 l2 : list A) :
  find p (l1 ++ l2) = match find p l1 with Some x => Some x | None => find p l2 end.
Proof.
  induction l1 as [|x l1 IH]; simpl; [reflexivity|]. destruct (p x); [reflexivity|exact IH].
Qed.

Lemma existsb_false {A : Type} (p : A -> bool) (l : list A) :
  existsb p l = false <-> forall x, In x l -> p x = false.
Proof.
  split.
  - intros H x Hx. destruct (p x) eqn:E; [|reflexivity].
    assert (existsb p l = true) by (apply existsb_exists; eauto). congruence.
  - intros H. destruct (existsb p l) eqn:E; [|reflexivity].
    apply existsb_exists in E as (x & Hx & Hpx). rewrite (H x Hx) in Hpx. discriminate.
Qed.

Lemma find_none_existsb {A : Type} (p : A -> bool) (l : list A) :
  existsb p l = false -> find p l = None.
Proof.
  induction l as [|x l IH]; simpl; [reflexivity|].
  intros H. apply orb_false_iff in H as [H1 H2]. rewrite H1. auto.
Qed.

(** what a resolved upsert of a row does to the table *)
Lemma upsert_row_resolved (now : Z) (s : Sensor.t) (db db' : Db) :
  SensorRepository.upsert_row now s db = Resolved db' ->
  SensorRepository.getSensorById (Sensor.id s) db' = Resolved (Some s)
  /\ (forall id, id <> Sensor.id s ->
        SensorRepository.getSensorById id db' = SensorRepository.getSensorById id db)
  /\ reading_rows db' = reading_rows db
  /\ map SensorRepository.row_id (sensor_rows db') =
     map SensorRepository.row_id (sensor_rows db)
     ++ (if existsb (fun r => String.eqb (SensorRepository.row_id r) (Sensor.id s)) (sensor_rows db)
         then [] else [Sensor.id s]).
Proof.
  unfold SensorRepository.upsert_row.
  destruct (existsb (SensorRepository.entity_clash s) (sensor_rows db)); [discriminate|].
  set (upd := fun r => if String.eqb (SensorRepository.row_id r) (Sensor.id s)
                       then SensorRow.mk s (SensorRow.created_at r) now else r).
  assert (Hid : forall r, SensorRepository.row_id (upd r) = SensorRepository.row_id r).
  { intros r; unfold upd. destruct (String.eqb_spec (SensorRepository.row_id r) (Sensor.id s));
      [symmetry; exact e|reflexivity]. }
  destruct (existsb (fun r => String.eqb (SensorRepository.row_id r) (Sensor.id s))
              (sensor_rows db)) eqn:Hex; intros H; injection H as <-.
  - unfold SensorRepository.getSensorById; cbn [sensor_rows reading_rows].
    repeat split.
    + rewrite find_map_same by (intros r; rewrite Hid; reflexivity).
      destruct (find (fun r => String.eqb (SensorRepository.row_id r) (Sensor.id s)) (sensor_rows db))
        as [r|] eqn:Hf.
      * apply find_some in Hf as [_ Hf]. unfold upd; simpl. rewrite Hf. reflexivity.
      * exfalso. apply existsb_exists in Hex as (r & Hr & Hrs).
        eapply find_none in Hf; [|exact Hr]. congruence.
    + intros id Hne. rewrite find_map_same by (intros r; rewrite Hid; reflexivity).
      destruct (find (fun r => String.eqb (SensorRepository.row_id r) id) (sensor_rows db))
        as [r|] eqn:Hf; [|reflexivity].
      apply find_some in Hf as [_ Hf]. apply String.eqb_eq in Hf.
      unfold upd; simpl. destruct (String.eqb_spec (SensorRepository.row_id r) (Sensor.id s));
        [congruence|reflexivity].
    + rewrite map_map, app_nil_r. apply map_ext, Hid.
  - unfold SensorRepository.getSensorById; cbn [sensor_rows reading_rows].
    repeat split.
    + rewrite find_app, find_none_existsb by exact Hex. simpl.
      unfold SensorRepository.row_id at 1; simpl. rewrite String.eqb_refl. reflexivity.
    + intros id Hne. rewrite find_app.
      destruct (find _ (sensor_rows db)); [reflexivity|]. simpl.
      unfold SensorRepository.row_id at 1; simpl.
      destruct (String.eqb_spec (Sensor.id s) id); [congruence|reflexivity].
    + rewrite map_app. reflexivity.
Qed.

Lemma NoDup_snoc {A : Type} (l : list A) (x : A) :
  NoDup l -> ~ In x l -> NoDup (l ++ [x]).
Proof.
  intros Hl Hx. apply NoDup_app; auto using NoDup_cons, NoDup_nil.
  intros y Hy Hy'. destruct Hy' as [<-|[]]. contradiction.
Qed.

Lemma take_all (n : nat) (x : string) : Js.length x <= n -> take n x = x.
Proof.
  revert n; induction x as [|c x IH]; intros n Hn; destruct n; simpl in *; try lia; auto.
  rewrite IH by lia. reflexivity.
Qed.

Lemma drop_all (n : nat) (x : string) : Js.length x <= n -> drop n x = EmptyString.
Proof.
  revert n; induction x as [|c x IH]; intros n Hn; destruct n; simpl in *; try lia; auto.
  apply IH. lia.
Qed.

Lemma get_drop (n j : nat) (x : string) : get j (drop n x) = get (n + j) x.
Proof.
  revert n; induction x as [|c x IH]; intros n; destruct n; simpl; auto.
Qed.

Lemma get_past (i : nat) (x : string) : Js.length x <= i -> get i x = None.
Proof.
  revert i; induction x as [|c x IH]; intros i Hi; destruct i; simpl in *; try lia; auto.
  apply IH. lia.
Qed.

Lemma all_spaces_false (t : string) :
  SensorRepository.all_spaces t = false <-> exists j c, get j t = Some c /\ c <> " "%char.
Proof.
  induction t as [|d t IH]; simpl.
  - split; [discriminate|]. intros (j & c & H & _). destruct j; discriminate.
  - rewrite andb_false_iff, IH. split.
    + intros [Hd|(j & c & Hj & Hc)].
      * exists 0, d. split; [reflexivity|]. intros ->. discriminate.
      * exists (S j), c. auto.
    + intros ([|j] & c & Hj & Hc).
      * left. injection Hj as ->. destruct (Ascii.eqb_spec c " "%char); [contradiction|reflexivity].
      * right. eauto.
Qed.

Lemma varchar_none (n : nat) (x : string) :
  SensorRepository.varchar n x = None
  <-> exists i c, n <= i /\ get i x = Some c /\ c <> " "%char.
Proof.
  unfold SensorRepository.varchar. destruct (Nat.leb_spec (Js.length x) n) as [Hle|Hgt].
  - split; [discriminate|]. intros (i & c & Hi & Hg & _). rewrite get_past in Hg by lia.
    discriminate.
  - destruct (SensorRepository.all_spaces (drop n x)) eqn:E.
    + split; [discriminate|]. intros (i & c & Hi & Hg & Hc).
      assert (Hf : SensorRepository.all_spaces (drop n x) = false).
      { apply all_spaces_false. exists (i - n), c. rewrite get_drop.
        replace (n + (i - n)) with i by lia. auto. }
      congruence.
    + split; [intros _|intros _; reflexivity].
      apply all_spaces_false in E as (j & c & Hj & Hc). rewrite get_drop in Hj.
      exists (n + j), c. repeat split; auto. lia.
Qed.

Lemma varchar_some (n : nat) (x y : string) :
  SensorRepository.varchar n x = Some y ->
  y = take n x /\ SensorRepository.all_spaces (drop n x) = true.
Proof.
  unfold SensorRepository.varchar. destruct (Nat.leb_spec (Js.length x) n) as [Hle|Hgt].
  - intros [=<-]. rewrite take_all, drop_all by lia. auto.
  - destruct (SensorRepository.all_spaces (drop n x)) eqn:E; [|discriminate].
    intros [=<-]. auto.
Qed.

Lemma varchar_fit (n : nat) (x : string) :
  Js.length x <= n -> SensorRepository.varchar n x = Some x.
Proof.
  intros H. unfold SensorRepository.varchar. apply Nat.leb_le in H. rewrite H. reflexivity.
Qed.

Lemma to_row_resolved (ok : Z -> bool) (s s' : Sensor.t) :
  SensorRepository.to_row ok s = Resolved s' ->
  s' = Sensor.mk (take 255 (Sensor.id s)) (take 255 (Sensor.friendlyName s))
         (take 255 (Sensor.entityId s)) (Sensor.type s) (take 20 (Sensor.unit s))
         (Sensor.lastSeen s) (Sensor.status s)
  /\ forall x n, In (x, n) (SensorRepository.text_columns s) ->
       SensorRepository.all_spaces (drop n x) = true.
Proof.
  unfold SensorRepository.to_row.
  destruct (negb (SensorRepository.text_ok s)); [discriminate|].
  destruct (negb (ok (Sensor.lastSeen s))); [discriminate|].
  destruct (SensorRepository.varchar 255 (Sensor.id s)) as [i|] eqn:Hi; [|discriminate].
  destruct (SensorRepository.varchar 255 (Sensor.entityId s)) as [e|] eqn:He; [|discriminate].
  destruct (SensorRepository.varchar 255 (Sensor.friendlyName s)) as [f|] eqn:Hf; [|discriminate].
  destruct (SensorRepository.varchar 20 (Sensor.unit s)) as [u|] eqn:Hu; [|discriminate].
  apply varchar_some in Hi as [-> Hi], He as [-> He], Hf as [-> Hf], Hu as [-> Hu].
  intros [=<-]. split; [reflexivity|].
  intros x n Hx. simpl in Hx.
  destruct Hx as [[=<- <-]|[[=<- <-]|[[=<- <-]|[[=<- <-]|[]]]]]; assumption.
Qed.

Lemma to_row_rejected (ok : Z -> bool) (s : Sensor.t) :
  (exists e, SensorRepository.to_row ok s = Rejected e)
  <-> SensorRepository.text_ok s = false \/ ok (Sensor.lastSeen s) = false
      \/ exists x n, In (x, n) (SensorRepository.text_columns s)
                     /\ exists i c, n <= i /\ get i x = Some c /\ c <> " "%char.
Proof.
  unfold SensorRepository.to_row.
  destruct (SensorRepository.text_ok s); cbn [negb]; [|split; [intros _; left; reflexivity|eauto]].
  destruct (ok (Sensor.lastSeen s)); cbn [negb];
    [|split; [intros _; right; left; reflexivity|eauto]].
  assert (Hcol : forall P : string -> nat -> Prop,
            (exists x n, In (x, n) (SensorRepository.text_columns s) /\ P x n) <->
            P (Sensor.id s) 255 \/ P (Sensor.entityId s) 255 \/ P (Sensor.friendlyName s) 255
            \/ P (Sensor.unit s) 20).
  { intros P. simpl. split.
    - intros (x & n & Hx & HP).
      destruct Hx as [[=<- <-]|[[=<- <-]|[[=<- <-]|[[=<- <-]|[]]]]]; tauto.
    - intros [H|[H|[H|H]]]; eexists; eexists; split; try eassumption; tauto. }
  rewrite Hcol, <- !varchar_none.
  destruct (SensorRepository.varchar 255 (Sensor.id s)) eqn:Hi;
    destruct (SensorRepository.varchar 255 (Sensor.entityId s)) eqn:He;
    destruct (SensorRepository.varchar 255 (Sensor.friendlyName s)) eqn:Hf;
    destruct (SensorRepository.varchar 20 (Sensor.unit s)) eqn:Hu;
    (split; [intros [e He']; try discriminate; intuition congruence
            |intros H; first [eexists; reflexivity | exfalso; intuition congruence]]).
Qed.

Lemma to_row_fits (ok : Z -> bool) (s : Sensor.t) :
  SensorRepository.fits s = true -> SensorRepository.text_ok s = true ->
  ok (Sensor.lastSeen s) = true -> SensorRepository.to_row ok s = Resolved s.
Proof.
  intros Hfit Ht Hok. unfold SensorRepository.fits in Hfit.
  apply andb_prop in Hfit as [Hfit Hu]. apply andb_prop in Hfit as [Hfit Hf].
  apply andb_prop in Hfit as [Hi He]. apply Nat.leb_le in Hi, He, Hf, Hu.
  unfold SensorRepository.to_row. rewrite Ht, Hok. simpl.
  rewrite !varchar_fit by assumption. destruct s. reflexivity.
Qed.

(** what a resolved upsert does to the table *)
Lemma upsert_resolved (ok : Z -> bool) (now : Z) (s : Sensor.t) (db db' : Db) :
  SensorRepository.upsertSensor ok now s db = Resolved db' ->
  exists s', SensorRepository.to_row ok s = Resolved s'
  /\ SensorRepository.getSensorById (Sensor.id s') db' = Resolved (Some s')
  /\ (forall id, id <> Sensor.id s' ->
        SensorRepository.getSensorById id db' = SensorRepository.getSensorById id db)
  /\ reading_rows db' = reading_rows db
  /\ map SensorRepository.row_id (sensor_rows db') =
     map SensorRepository.row_id (sensor_rows db)
     ++ (if existsb (fun r => String.eqb (SensorRepository.row_id r) (Sensor.id s')) (sensor_rows db)
         then [] else [Sensor.id s']).
Proof.
  unfold SensorRepository.upsertSensor.
  destruct (SensorRepository.to_row ok s) as [s'|e]; cbn [bind]; [|discriminate].
  intros H. exists s'. split; [reflexivity|]. exact (upsert_row_resolved _ _ _ _ H).
Qed.

Lemma upsert_stored_id (ok : Z -> bool) (s s' : Sensor.t) :
  SensorRepository.to_row ok s = Resolved s' -> Sensor.id s' = take 255 (Sensor.id s).
Proof. intros H. apply to_row_resolved in H as [-> _]. reflexivity. Qed.

Lemma upsert_keeps_keys (ok : Z -> bool) (now : Z) (s : Sensor.t) (db db' : Db) :
  SensorRepository.upsertSensor ok now s db = Resolved db' ->
  NoDup (map SensorRepository.row_id (sensor_rows db)) ->
  NoDup (map SensorRepository.row_id (sensor_rows db')).
Proof.
  intros H Hnd. destruct (upsert_resolved _ _ _ _ _ H) as (s' & _ & _ & _ & _ & Hk). rewrite Hk.
  destruct (existsb _ _) eqn:Hex; [rewrite app_nil_r; exact Hnd|].
  apply NoDup_snoc; [exact Hnd|].
  intros Hin. apply in_map_iff in Hin as (r & Hr & Hin).
  rewrite existsb_false in Hex. specialize (Hex r Hin). simpl in Hex.
  rewrite Hr, String.eqb_refl in Hex. discriminate.
Qed.

Lemma upsert_all_ok (ok : Z -> bool) (now : nat -> Z) (sensors : list Sensor.t) :
  forall k db db', upsert_all ok now k sensors db = (db', None) ->
  NoDup (map (fun s => take 255 (Sensor.id s)) sensors) ->
  (forall s, In s sensors ->
     exists s', SensorRepository.to_row ok s = Resolved s'
                /\ SensorRepository.getSensorById (Sensor.id s') db' = Resolved (Some s'))
  /\ (forall id, ~ In id (map (fun s => take 255 (Sensor.id s)) sensors) ->
        SensorRepository.getSensorById id db' = SensorRepository.getSensorById id db)
  /\ reading_rows db' = reading_rows db.
Proof.
  induction sensors as [|s rest IH]; intros k db db' H Hnd; simpl in H.
  - injection H as <-. repeat split; intros; first [contradiction | reflexivity].
  - destruct (SensorRepository.upsertSensor ok (now k) s db) as [db1|e] eqn:Hu; [|discriminate].
    inversion Hnd as [|? ? Hn Hnd']; subst.
    destruct (IH _ _ _ H Hnd') as (Hin & Hout & Hr).
    destruct (upsert_resolved _ _ _ _ _ Hu) as (s' & Hs' & Hs & Ho & Hr1 & _).
    pose proof (upsert_stored_id _ _ _ Hs') as Hid.
    repeat split.
    + intros x [<-|Hx]; [|auto]. exists s'. split; [exact Hs'|].
      rewrite Hout by (rewrite Hid; exact Hn). exact Hs.
    + intros id Hid'. rewrite Hout by (intros Hx; apply Hid'; right; exact Hx). apply Ho.
      intros Heq. apply Hid'. left. cbv beta. congruence.
    + congruence.
Qed.

Lemma upsert_all_fail (ok : Z -> bool) (now : nat -> Z) (sensors : list Sensor.t) :
  forall k db db' e, upsert_all ok now k sensors db = (db', Some e) ->
  NoDup (map (fun s => take 255 (Sensor.id s)) sensors) ->
  exists pre s rest,
    sensors = pre ++ s :: rest
    /\ (exists k', SensorRepository.upsertSensor ok (now k') s db' = Rejected e)
    /\ (forall p, In p pre ->
          exists p', SensorRepository.to_row ok p = Resolved p'
                     /\ SensorRepository.getSensorById (Sensor.id p') db' = Resolved (Some p'))
    /\ (forall id, ~ In id (map (fun p => take 255 (Sensor.id p)) pre) ->
          SensorRepository.getSensorById id db' = SensorRepository.getSensorById id db)
    /\ reading_rows db' = reading_rows db.
Proof.
  induction sensors as [|s rest IH]; intros k db db' e H Hnd; simpl in H; [discriminate|].
  destruct (SensorRepository.upsertSensor ok (now k) s db) as [db1|e1] eqn:Hu.
  - inversion Hnd as [|? ? Hn Hnd']; subst.
    destruct (IH _ _ _ _ H Hnd') as (pre & s1 & rest' & -> & Hf & Hin & Hout & Hr).
    destruct (upsert_resolved _ _ _ _ _ Hu) as (s' & Hs' & Hs & Ho & Hr1 & _).
    pose proof (upsert_stored_id _ _ _ Hs') as Hid.
    exists (s :: pre), s1, rest'. repeat split; auto.
    + intros p [<-|Hp]; [|auto]. exists s'. split; [exact Hs'|].
      rewrite Hout; [exact Hs|]. rewrite Hid.
      intros Hp. apply Hn. rewrite map_app. apply in_or_app; left; exact Hp.
    + intros id Hid'. rewrite Hout by (intros Hx; apply Hid'; right; exact Hx). apply Ho.
      intros Heq. apply Hid'. left. cbv beta. congruence.
    + congruence.
  - injection H as <- <-. exists [], s, rest. repeat split; eauto.
    intros p [].
Qed.

(** X3: an upsert of a sensor whose text fields are within their VARCHAR
    limits and hold no code unit 0, whose [lastSeen] the server accepts,
    and whose entity id no other sensor holds succeeds; afterwards the
    sensor is read back by its id, every other id reads as before, the
    readings are untouched and the ids stay distinct. *)
Theorem upsertSensor_then_getSensorById (timestamptz_ok : Z -> bool) (now : Z) (s : Sensor.t)
    (db : Db) :
  SensorRepository.fits s = true ->
  SensorRepository.text_ok s = true ->
  timestamptz_ok (Sensor.lastSeen s) = true ->
  (forall r, In r (sensor_rows db) ->
     Sensor.entityId (SensorRow.sensor r) = Sensor.entityId s ->
     SensorRepository.row_id r = Sensor.id s) ->
  exists db',
    SensorRepository.upsertSensor timestamptz_ok now s db = Resolved db'
    /\ SensorRepository.getSensorById (Sensor.id s) db' = Resolved (Some s)
    /\ (forall id, id <> Sensor.id s ->
          SensorRepository.getSensorById id db' = SensorRepository.getSensorById id db)
    /\ reading_rows db' = reading_rows db
    /\ (NoDup (map SensorRepository.row_id (sensor_rows db)) ->
        NoDup (map SensorRepository.row_id (sensor_rows db'))).
Proof.
  intros Hfit Ht Hok Hfree.
  assert (Hc : existsb (SensorRepository.entity_clash s) (sensor_rows db) = false).
  { apply existsb_false. intros r Hr. unfold SensorRepository.entity_clash.
    destruct (String.eqb_spec (Sensor.entityId (SensorRow.sensor r)) (Sensor.entityId s))
      as [He|]; [|reflexivity].
    rewrite (Hfree r Hr He), String.eqb_refl. reflexivity. }
  pose proof (to_row_fits timestamptz_ok s Hfit Ht Hok) as Hrow.
  destruct (SensorRepository.upsertSensor timestamptz_ok now s db) as [db'|e] eqn:Hu.
  - exists db'. destruct (upsert_resolved _ _ _ _ _ Hu) as (s' & Hs' & H1 & H2 & H3 & _).
    rewrite Hrow in Hs'. injection Hs' as <-.
    split; [reflexivity|]. repeat split; auto.
    intros Hnd. exact (upsert_keeps_keys _ _ _ _ _ Hu Hnd).
  - exfalso. unfold SensorRepository.upsertSensor in Hu. rewrite Hrow in Hu. cbn [bind] in Hu.
    unfold SensorRepository.upsert_row in Hu. rewrite Hc in Hu.
    destruct (existsb _ _) in Hu; discriminate.
Qed.

(** X4: an upsert is rejected exactly when a text field holds code unit 0,
    the server refuses [lastSeen], a text field has a character other than
    a space past its VARCHAR limit, or a row of another sensor holds the
    entity id as it would be stored; the conflict clause covers the id
    only.  A resolved upsert stores the sensor with its text fields cut to
    their limits, and only spaces are cut. *)
Theorem upsertSensor_rejected_iff (timestamptz_ok : Z -> bool) (now : Z) (s : Sensor.t) (db : Db) :
  ((exists e, SensorRepository.upsertSensor timestamptz_ok now s db = Rejected e)
   <-> SensorRepository.text_ok s = false
       \/ timestamptz_ok (Sensor.lastSeen s) = false
       \/ (exists x n, In (x, n) (SensorRepository.text_columns s)
                       /\ exists i c, n <= i /\ get i x = Some c /\ c <> " "%char)
       \/ exists r, In r (sensor_rows db)
                    /\ Sensor.entityId (SensorRow.sensor r) = take 255 (Sensor.entityId s)
                    /\ SensorRepository.row_id r <> take 255 (Sensor.id s))
  /\ (forall db', SensorRepository.upsertSensor timestamptz_ok now s db = Resolved db' ->
        SensorRepository.getSensorById (take 255 (Sensor.id s)) db'
        = Resolved (Some (Sensor.mk (take 255 (Sensor.id s)) (take 255 (Sensor.friendlyName s))
                            (take 255 (Sensor.entityId s)) (Sensor.type s)
                            (take 20 (Sensor.unit s)) (Sensor.lastSeen s) (Sensor.status s)))
        /\ forall x n, In (x, n) (SensorRepository.text_columns s) ->
             SensorRepository.all_spaces (drop n x) = true).
Proof.
  split.
  - unfold SensorRepository.upsertSensor.
    destruct (SensorRepository.to_row timestamptz_ok s) as [s'|e] eqn:Hrow; cbn [bind].
    + assert (Hno : ~ (SensorRepository.text_ok s = false
                       \/ timestamptz_ok (Sensor.lastSeen s) = false
                       \/ exists x n, In (x, n) (SensorRepository.text_columns s)
                            /\ exists i c, n <= i /\ get i x = Some c /\ c <> " "%char)).
      { rewrite <- to_row_rejected, Hrow. intros [e He]. discriminate. }
      apply to_row_resolved in Hrow as [Hs' _].
      unfold SensorRepository.upsert_row.
      destruct (existsb (SensorRepository.entity_clash s') (sensor_rows db)) eqn:Hc.
      * split; [intros _|eauto]. right; right; right.
        apply existsb_exists in Hc as (r & Hr & Hrc).
        unfold SensorRepository.entity_clash in Hrc. apply andb_prop in Hrc as [H1 H2].
        apply String.eqb_eq in H1. rewrite Hs' in H1, H2.
        cbn [Sensor.entityId Sensor.id] in H1, H2.
        exists r. repeat split; auto.
        intros He. rewrite He, String.eqb_refl in H2. discriminate.
      * split.
        -- intros (e & He). destruct (existsb _ _) in He; discriminate.
        -- intros [H|[H|[H|(r & Hr & H1 & H2)]]]; try (exfalso; tauto).
           exfalso. rewrite existsb_false in Hc. specialize (Hc r Hr).
           unfold SensorRepository.entity_clash in Hc. rewrite Hs' in Hc.
           cbn [Sensor.entityId Sensor.id] in Hc.
           rewrite H1, String.eqb_refl in Hc. cbn [andb] in Hc.
           destruct (String.eqb_spec (SensorRepository.row_id r) (take 255 (Sensor.id s)));
             [contradiction|discriminate].
    + split; [intros _|eauto].
      assert (He : exists e', SensorRepository.to_row timestamptz_ok s = Rejected e') by eauto.
      apply to_row_rejected in He. tauto.
  - intros db' Hu. destruct (upsert_resolved _ _ _ _ _ Hu) as (s' & Hs' & Hg & _).
    apply to_row_resolved in Hs' as [-> Hsp]. split; [exact Hg|exact Hsp].
Qed.

(** X5: the worker's discovery step, for sensors whose ids as stored (cut
    to 255 characters) are distinct: when every upsert succeeds it returns
    the discovered list, every sensor is stored as the server stores it,
    and no other id changes.  An upsert error stops the loop: the sensors
    before the failing one stay stored, no other row changes, in particular
    the failing one's, and the error is rethrown.  Readings are never
    touched. *)
Theorem discoverAndStoreSensors_outcome (timestamptz_ok : Z -> bool) (sensors : list Sensor.t)
    (now : nat -> Z) (db : Db) :
  NoDup (map (fun s => take 255 (Sensor.id s)) sensors) ->
  let '(db', result) := discoverAndStoreSensors timestamptz_ok (Resolved sensors) now db in
  reading_rows db' = reading_rows db
  /\ match result with
     | Resolved ss =>
         ss = sensors
         /\ (forall s, In s sensors ->
               exists s', SensorRepository.to_row timestamptz_ok s = Resolved s'
                          /\ SensorRepository.getSensorById (Sensor.id s') db' = Resolved (Some s'))
         /\ (forall id, ~ In id (map (fun s => take 255 (Sensor.id s)) sensors) ->
               SensorRepository.getSensorById id db' = SensorRepository.getSensorById id db)
     | Rejected e =>
         exists pre s rest,
           sensors = pre ++ s :: rest
           /\ (exists k, SensorRepository.upsertSensor timestamptz_ok (now k) s db' = Rejected e)
           /\ (forall p, In p pre ->
                 exists p', SensorRepository.to_row timestamptz_ok p = Resolved p'
                            /\ SensorRepository.getSensorById (Sensor.id p') db'
                               = Resolved (Some p'))
           /\ (forall id, ~ In id (map (fun p => take 255 (Sensor.id p)) pre) ->
                 SensorRepository.getSensorById id db' = SensorRepository.getSensorById id db)
           /\ SensorRepository.getSensorById (take 255 (Sensor.id s)) db'
              = SensorRepository.getSensorById (take 255 (Sensor.id s)) db
     end.
Proof.
  intros Hnd. unfold discoverAndStoreSensors.
  destruct (upsert_all timestamptz_ok now 0 sensors db) as [db' [e|]] eqn:Hu.
  - destruct (upsert_all_fail _ _ _ _ _ _ _ Hu Hnd) as (pre & s & rest & Hs & Hf & Hin & Hout & Hr).
    split; [exact Hr|]. exists pre, s, rest. repeat split; auto.
    apply Hout. subst sensors. rewrite map_app in Hnd. simpl in Hnd.
    apply NoDup_remove_2 in Hnd. intros Hp; apply Hnd, in_or_app; left; exact Hp.
  - destruct (upsert_all_ok _ _ _ _ _ _ Hu Hnd) as (Hin & Hout & Hr). auto.
Qed.

(** ** The batch insert *)

Module BatchFacts.
Import ReadingRepository.

Lemma sapp_assoc (a b c : string) : ((a ++ b) ++ c = a ++ (b ++ c))%string.
Proof. induction a as [|x a IH]; simpl; [reflexivity|]. rewrite IH. reflexivity. Qed.

Lemma lex_digits (d : Decimal.uint) :
  forall acc rest, lex (Some acc) (uint_string d ++ rest) = lex (Some (Nat.of_uint_acc d acc)) rest.
Proof.
  induction d as [|d IH|d IH|d IH|d IH|d IH|d IH|d IH|d IH|d IH|d IH]; intros acc rest;
    [reflexivity|..]; simpl; rewrite IH, Nat.tail_mul_spec; do 3 f_equal; lia.
Qed.

Lemma lex_number (a : nat) (c : ascii) (s : string) :
  is_digit c = false ->
  lex (Some 0) (number_toString a ++ String c s)
  = TParam a :: (if Ascii.eqb c "$" then lex (Some 0) s else char_tok c ++ lex None s).
Proof.
  intros Hc. unfold number_toString. rewrite lex_digits. simpl lex. rewrite Hc.
  change (Nat.of_uint_acc (Nat.to_uint a) 0) with (Nat.of_uint (Nat.to_uint a)).
  rewrite DecimalNat.Unsigned.of_to. reflexivity.
Qed.

Lemma lex_number_comma (a : nat) (s : string) :
  lex (Some 0) (number_toString a ++ String "," (String " " (String "$" s)))
  = TParam a :: TComma :: lex (Some 0) s.
Proof. rewrite lex_number by reflexivity. reflexivity. Qed.

Lemma lex_number_close (a : nat) (s : string) :
  lex (Some 0) (number_toString a ++ String ")" s) = TParam a :: TRParen :: lex None s.
Proof. rewrite lex_number by reflexivity. reflexivity. Qed.

Lemma lex_placeholder (i : nat) (rest : string) :
  lex None (placeholder i ++ rest) = toks_of i ++ lex None rest.
Proof.
  unfold placeholder. repeat rewrite sapp_assoc.
  assert (Hsep : forall x, (", $" ++ x)%string = String "," (String " " (String "$" x)))
    by reflexivity.
  assert (Hcl : forall x, (")" ++ x)%string = String ")" x) by reflexivity.
  rewrite !Hsep, Hcl.
  change (lex None (("($" ++ ?x)%string)) with (TLParen :: lex (Some 0) x).
  rewrite !lex_number_comma, lex_number_close. reflexivity.
Qed.

Lemma sapp_nil (a : string) : (a ++ "")%string = a.
Proof. induction a as [|c a IH]; simpl; [reflexivity | now rewrite IH]. Qed.

Lemma lex_join (a : nat) (l : list nat) :
  lex None (join ", " (map placeholder (a :: l)))
  = toks_of a ++ flat_map (fun i => TComma :: toks_of i) l.
Proof.
  revert a. induction l as [|b l IH]; intros a.
  - simpl map. cbn [join]. rewrite <- (sapp_nil (placeholder a)), lex_placeholder.
    reflexivity.
  - change (join ", " (map placeholder (a :: b :: l)))
      with (placeholder a ++ ", " ++ join ", " (map placeholder (b :: l)))%string.
    rewrite lex_placeholder.
    change (lex None (", " ++ ?x)%string) with (TComma :: lex None x).
    rewrite IH. reflexivity.
Qed.

Lemma parse_toks (a : nat) (rest : list Tok) :
  parse_tuples PStart (toks_of a ++ rest)
  = option_map (cons (tup a)) (parse_tuples PAfterTuple rest).
Proof. reflexivity. Qed.

Lemma parse_after (l : list nat) :
  parse_tuples PAfterTuple (flat_map (fun i => TComma :: toks_of i) l) = Some (map tup l).
Proof.
  induction l as [|i l IH]; [reflexivity|].
  cbn [flat_map app]. cbn [parse_tuples]. rewrite parse_toks, IH. reflexivity.
Qed.

Lemma fold_max_app (l1 l2 : list nat) :
  fold_right Nat.max 0 (l1 ++ l2) = Nat.max (fold_right Nat.max 0 l1) (fold_right Nat.max 0 l2).
Proof. induction l1 as [|x l1 IH]; simpl; [reflexivity | rewrite IH; lia]. Qed.

Lemma max_param_tups (n : nat) : max_param (map tup (seq 0 n)) = 4 * n.
Proof.
  unfold max_param. induction n as [|n IH]; [reflexivity|].
  rewrite seq_S, map_app, concat_app, fold_max_app, IH. simpl. lia.
Qed.

Lemma nth_error_batch_values (rs : list SensorReading.t) (i : nat) (r : SensorReading.t) :
  nth_error rs i = Some r ->
  nth_error (batch_values rs) (i * 4) = Some (PText (SensorReading.sensorId r))
  /\ nth_error (batch_values rs) (i * 4 + 1) = Some (PTime (SensorReading.timestamp r))
  /\ nth_error (batch_values rs) (i * 4 + 2) = Some (param_of (SensorReading.temperature r))
  /\ nth_error (batch_values rs) (i * 4 + 3) = Some (param_of (SensorReading.humidity r)).
Proof.
  revert i. induction rs as [|r0 rs IH]; intros [|i] H; simpl in H; try discriminate.
  - injection H as <-. repeat split.
  - specialize (IH i H).
    replace (S i * 4) with (S (S (S (S (i * 4))))) by lia.
    replace (S i * 4 + 1) with (S (S (S (S (i * 4 + 1))))) by lia.
    replace (S i * 4 + 2) with (S (S (S (S (i * 4 + 2))))) by lia.
    replace (S i * 4 + 3) with (S (S (S (S (i * 4 + 3))))) by lia.
    exact IH.
Qed.

Lemma bind_row_tup (rs : list SensorReading.t) (i : nat) (r : SensorReading.t) :
  nth_error rs i = Some r -> bind_row (batch_values rs) (tup i) = Some r.
Proof.
  intros H. destruct (nth_error_batch_values rs i r H) as (H0 & H1 & H2 & H3).
  unfold bind_row, tup.
  replace (i * 4 + 1) with (S (i * 4)) by lia.
  replace (i * 4 + 2) with (S (i * 4 + 1)) by lia.
  replace (i * 4 + 3) with (S (i * 4 + 2)) by lia.
  replace (i * 4 + 4) with (S (i * 4 + 3)) by lia.
  cbn [map]. rewrite H0, H1, H2, H3.
  destruct r as [id t [x|] [y|]]; reflexivity.
Qed.

Lemma traverse_suffix (rs : list SensorReading.t) :
  forall suffix pre, rs = pre ++ suffix ->
  traverse (bind_row (batch_values rs)) (map tup (seq (List.length pre) (List.length suffix)))
  = Some suffix.
Proof.
  induction suffix as [|r suf IH]; intros pre Hrs; [reflexivity|].
  cbn [List.length seq map traverse].
  rewrite (bind_row_tup rs (List.length pre) r).
  2:{ rewrite Hrs, nth_error_app2 by lia. rewrite Nat.sub_diag. reflexivity. }
  specialize (IH (pre ++ [r])). rewrite length_app in IH. simpl in IH.
  rewrite Nat.add_1_r in IH. rewrite IH; [reflexivity|].
  rewrite Hrs, <- app_assoc. reflexivity.
Qed.

Lemma batch_values_length (rs : list SensorReading.t) :
  List.length (batch_values rs) = 4 * List.length rs.
Proof. induction rs as [|r rs IH]; simpl; [reflexivity | rewrite IH; lia]. Qed.

Lemma values_rows_batch (rs : list SensorReading.t) :
  rs <> [] ->
  values_rows (batch_placeholders rs) (batch_values rs)
  = if List.length rs <? 16384 then Some rs else None.
Proof.
  intros Hne. destruct (List.length rs) eqn:Hn.
  { destruct rs; [contradiction | discriminate]. }
  unfold values_rows, batch_placeholders. rewrite Hn. cbn [seq].
  rewrite lex_join, parse_toks, parse_after. cbn [option_map].
  change (tup 0 :: map tup (seq 1 n)) with (map tup (seq 0 (S n))).
  rewrite max_param_tups, batch_values_length, Hn. unfold bind_count.
  assert (E : 4 * 16384 = 65536) by reflexivity.
  destruct (Nat.ltb_spec (S n) 16384); destruct (Nat.ltb_spec (4 * S n) 65536); try lia.
  - rewrite Nat.eqb_refl, <- Hn. apply (traverse_suffix rs rs []). reflexivity.
  - reflexivity.
Qed.

End BatchFacts.

Lemma insert_each_resolved (rs : list SensorReading.t) :
  forall db db', insert_each rs db = Resolved db'
  <-> forallb (ReadingRepository.row_ok db) rs = true
      /\ db' = mkDb (sensor_rows db) (reading_rows db ++ rs).
Proof.
  induction rs as [|r rs IH]; intros db db'.
  - destruct db as [ss rd]. simpl. rewrite app_nil_r.
    split; [intros [=<-]; auto | intros [_ ->]; reflexivity].
  - cbn [insert_each forallb]. unfold ReadingRepository.insertReading, ReadingRepository.row_ok.
    destruct (ReadingRepository.has_some_value r);
      destruct (ReadingRepository.sensor_exists db (SensorReading.sensorId r)); simpl;
      try (split; [discriminate | intros [[=] _]]).
    rewrite IH. simpl. rewrite <- app_assoc. reflexivity.
Qed.

Lemma insertReadingsBatch_eq (rs : list SensorReading.t) (db : Db) :
  ReadingRepository.insertReadingsBatch rs db
  = if List.length rs <? 16384
    then if forallb (ReadingRepository.row_ok db) rs
         then Resolved (mkDb (sensor_rows db) (reading_rows db ++ rs))
         else Rejected "violates foreign key or check constraint"
    else Rejected "bind message supplies a wrong number of parameters".
Proof.
  destruct rs as [|r rs].
  - destruct db. rewrite app_nil_r. reflexivity.
  - unfold ReadingRepository.insertReadingsBatch.
    rewrite BatchFacts.values_rows_batch by discriminate.
    destruct (_ <? 16384); reflexivity.
Qed.

(** X6: for a non-empty batch of fewer than 16384 readings, the VALUES
    list [insertReadingsBatch] builds reads back, with the parameters it
    sends bound, as exactly the given readings in order: four parameters
    per reading, the highest placeholder being the number of parameters
    sent.  From 16384 readings on there are 65536 parameters or more, the
    count node-postgres writes in 16 bits no longer matches, and nothing
    binds. *)
Theorem insertReadingsBatch_placeholders_bind_readings (rs : list SensorReading.t) :
  rs <> [] ->
  ReadingRepository.values_rows (ReadingRepository.batch_placeholders rs)
    (ReadingRepository.batch_values rs)
  = (if List.length rs <? 16384 then Some rs else None)
  /\ List.length (ReadingRepository.batch_values rs) = 4 * List.length rs.
Proof.
  intros Hne. split.
  - apply BatchFacts.values_rows_batch, Hne.
  - apply BatchFacts.batch_values_length.
Qed.


(** X8: a batch insert succeeds exactly when the batch has fewer than
    16384 readings and inserting the same readings one at a time with
    [insertReading] would succeed, and then it leaves the same database. *)
Theorem insertReadingsBatch_agrees_with_insertReading (rs : list SensorReading.t) (db db' : Db) :
  ReadingRepository.insertReadingsBatch rs db = Resolved db'
  <-> List.length rs < 16384 /\ insert_each rs db = Resolved db'.
Proof.
  rewrite insertReadingsBatch_eq, insert_each_resolved.
  destruct (Nat.ltb_spec (List.length rs) 16384) as [Hl|Hl].
  - destruct (forallb _ _); split.
    + intros [=<-]. auto.
    + intros [_ [_ ->]]. reflexivity.
    + discriminate.
    + intros [_ [[=] _]].
  - split; [discriminate|]. intros [H _]. lia.
Qed.

(** ** Integrity of the two tables *)

Lemma sensor_exists_keys (db : Db) (id : string) :
  ReadingRepository.sensor_exists db id = true
  <-> In id (map SensorRepository.row_id (sensor_rows db)).
Proof.
  unfold ReadingRepository.sensor_exists. rewrite existsb_exists, in_map_iff.
  split; intros (r & H1 & H2); exists r; split; auto.
  - apply String.eqb_eq in H2. exact H2.
  - apply String.eqb_eq. exact H1.
Qed.

Lemma row_ok_mono (db1 db2 : Db) (r : SensorReading.t) :
  incl (map SensorRepository.row_id (sensor_rows db1)) (map SensorRepository.row_id (sensor_rows db2)) ->
  ReadingRepository.row_ok db1 r = true -> ReadingRepository.row_ok db2 r = true.
Proof.
  unfold ReadingRepository.row_ok. intros Hi H. apply andb_prop in H as [H1 H2].
  rewrite H2, andb_true_r. apply sensor_exists_keys. apply Hi, sensor_exists_keys, H1.
Qed.

Lemma Forall_row_ok_mono (db1 db2 : Db) (l : list SensorReading.t) :
  incl (map SensorRepository.row_id (sensor_rows db1)) (map SensorRepository.row_id (sensor_rows db2)) ->
  Forall (fun r => ReadingRepository.row_ok db1 r = true) l ->
  Forall (fun r => ReadingRepository.row_ok db2 r = true) l.
Proof. intros Hi. apply Forall_impl. intros r. apply row_ok_mono, Hi. Qed.

Lemma update_status_keys (now : Z) (id : string) (st : SensorStatus) (db db' : Db) :
  SensorRepository.updateSensorStatus now id st db = Resolved db' ->
  map SensorRepository.row_id (sensor_rows db') = map SensorRepository.row_id (sensor_rows db)
  /\ reading_rows db' = reading_rows db.
Proof.
  intros [=<-]. cbn [sensor_rows reading_rows]. split; [|reflexivity].
  rewrite map_map. apply map_ext. intros r.
  destruct (String.eqb _ _); reflexivity.
Qed.

Lemma delete_sensor_keep (id : string) (db : Db) (r : SensorReading.t) :
  ReadingRepository.row_ok db r = true ->
  negb (String.eqb (SensorReading.sensorId r) id) = true ->
  ReadingRepository.row_ok
    (mkDb (filter (fun x => negb (String.eqb (SensorRepository.row_id x) id)) (sensor_rows db))
          (reading_rows db)) r = true.
Proof.
  unfold ReadingRepository.row_ok. intros H Hn. apply andb_prop in H as [H1 H2].
  rewrite H2, andb_true_r. unfold ReadingRepository.sensor_exists in *. cbn [sensor_rows].
  apply existsb_exists in H1 as (x & Hx & Hxe). apply existsb_exists. exists x.
  split; [|exact Hxe]. apply filter_In. split; [exact Hx|].
  apply String.eqb_eq in Hxe. rewrite Hxe. exact Hn.
Qed.

(** X9: the operations of the two repositories keep the tables' integrity:
    sensor ids stay distinct and every stored reading names a stored
    sensor and holds a value.  This covers an upsert, a status update, a
    sensor delete (whose cascade removes its readings), a single and a
    batch reading insert, and the retention delete. *)
Theorem repositories_keep_db_consistent (db : Db) :
  db_consistent db ->
  (forall ok now s db', SensorRepository.upsertSensor ok now s db = Resolved db' ->
     db_consistent db')
  /\ (forall now id st db', SensorRepository.updateSensorStatus now id st db = Resolved db' ->
        db_consistent db')
  /\ (forall id db', SensorRepository.deleteSensor id db = Resolved db' -> db_consistent db')
  /\ (forall r db', ReadingRepository.insertReading r db = Resolved db' -> db_consistent db')
  /\ (forall rs db', ReadingRepository.insertReadingsBatch rs db = Resolved db' ->
        db_consistent db')
  /\ (forall cutoff,
        db_consistent (mkDb (sensor_rows db) (fst (deleteOldReadings cutoff (reading_rows db))))).
Proof.
  intros [Hnd Hrows]. repeat split.
  - eapply upsert_keeps_keys; eassumption.
  - destruct (upsert_resolved _ _ _ _ _ H) as (s' & _ & _ & _ & Hr & Hk). rewrite Hr.
    apply (Forall_row_ok_mono db); [|exact Hrows].
    rewrite Hk. apply incl_appl, incl_refl.
  - destruct (update_status_keys _ _ _ _ _ H) as [Hk _]. rewrite Hk. exact Hnd.
  - destruct (update_status_keys _ _ _ _ _ H) as [Hk Hr]. rewrite Hr.
    apply (Forall_row_ok_mono db); [|exact Hrows]. rewrite Hk. apply incl_refl.
  - injection H as <-. cbn [sensor_rows]. apply NoDup_map_filter, Hnd.
  - injection H as <-. cbn [reading_rows].
    apply Forall_forall. intros r Hr. apply filter_In in Hr as [Hr Hn].
    apply delete_sensor_keep; [|exact Hn]. rewrite Forall_forall in Hrows. auto.
  - unfold ReadingRepository.insertReading in H.
    destruct (negb _); [discriminate|]. destruct (negb _); [discriminate|].
    injection H as <-. exact Hnd.
  - unfold ReadingRepository.insertReading in H.
    destruct (ReadingRepository.has_some_value r) eqn:Hv; [|discriminate].
    destruct (ReadingRepository.sensor_exists db (SensorReading.sensorId r)) eqn:He;
      [|discriminate].
    injection H as <-. cbn [reading_rows]. apply Forall_app. split; [exact Hrows|].
    constructor; [|constructor]. unfold ReadingRepository.row_ok. rewrite Hv, andb_true_r.
    exact He.
  - rewrite insertReadingsBatch_eq in H. destruct (_ <? 16384); [|discriminate].
    destruct (forallb _ _); [|discriminate].
    injection H as <-. exact Hnd.
  - rewrite insertReadingsBatch_eq in H. destruct (_ <? 16384); [|discriminate].
    destruct (forallb _ rs) eqn:Hf; [|discriminate].
    injection H as <-. cbn [reading_rows]. apply Forall_app. split; [exact Hrows|].
    apply Forall_forall. rewrite forallb_forall in Hf. exact Hf.
  - exact Hnd.
  - unfold deleteOldReadings. cbn [fst reading_rows].
    rewrite Forall_forall in *. intros r Hr. apply filter_In in Hr as [Hr _]. exact (Hrows r Hr).
Qed.

(** ** Schema migration *)

Lemma mem_app (c l : Migrate.catalog) (n : string) :
  Migrate.mem (c ++ l) n = Migrate.mem c n || Migrate.mem l n.
Proof. unfold Migrate.mem. apply existsb_app. Qed.

Lemma mem_ensure (c : Migrate.catalog) (n m : string) :
  Migrate.mem (Migrate.ensure c n) m = Migrate.mem c m || String.eqb m n.
Proof.
  unfold Migrate.ensure. destruct (Migrate.mem c n) eqn:E.
  - destruct (String.eqb_spec m n) as [->|]; [rewrite E|]; now rewrite ?orb_true_r, ?orb_false_r.
  - rewrite mem_app. cbn [Migrate.mem existsb]. rewrite orb_false_r. reflexivity.
Qed.

Lemma mem_ensure_self (c : Migrate.catalog) (n : string) :
  Migrate.mem (Migrate.ensure c n) n = true.
Proof. rewrite mem_ensure, String.eqb_refl, orb_true_r. reflexivity. Qed.

Lemma mem_ensure_mono (c : Migrate.catalog) (n m : string) :
  Migrate.mem c m = true -> Migrate.mem (Migrate.ensure c n) m = true.
Proof. intros H. rewrite mem_ensure, H. reflexivity. Qed.

Lemma mem_ensure_other (c : Migrate.catalog) (n m : string) :
  String.eqb m n = false -> Migrate.mem (Migrate.ensure c n) m = Migrate.mem c m.
Proof. intros H. rewrite mem_ensure, H, orb_false_r. reflexivity. Qed.

Lemma ensure_app (c : Migrate.catalog) (n : string) :
  Migrate.ensure c n = c ++ (if Migrate.mem c n then [] else [n]).
Proof. unfold Migrate.ensure. destruct (Migrate.mem c n); [rewrite app_nil_r|]; reflexivity. Qed.

Lemma fold_ensure (l : list string) :
  NoDup l -> forall c,
  fold_left Migrate.ensure l c = c ++ filter (fun n => negb (Migrate.mem c n)) l.
Proof.
  induction 1 as [|x l Hx Hnd IH]; intros c; cbn [fold_left filter].
  - rewrite app_nil_r. reflexivity.
  - rewrite IH, (filter_ext_in _ (fun n => negb (Migrate.mem c n))).
    2:{ intros n Hn. rewrite mem_ensure.
        destruct (String.eqb_spec n x) as [->|]; [contradiction|]. now rewrite orb_false_r. }
    rewrite ensure_app, <- app_assoc. destruct (Migrate.mem c x); reflexivity.
Qed.

Lemma exec_if_not_exists (c : Migrate.catalog) (n : string) (needs : list string)
    (rest : list Migrate.Stmt) :
  forallb (Migrate.mem c) needs = true ->
  Migrate.exec_script c (Migrate.CreateIfNotExists n needs :: rest)
  = Migrate.exec_script (Migrate.ensure c n) rest.
Proof.
  intros H. cbn [Migrate.exec_script Migrate.exec_stmt]. unfold Migrate.ensure.
  destruct (Migrate.mem c n); [reflexivity|]. rewrite H. reflexivity.
Qed.

Lemma exec_or_replace (c : Migrate.catalog) (n : string) (rest : list Migrate.Stmt) :
  Migrate.exec_script c (Migrate.CreateOrReplace n :: rest)
  = Migrate.exec_script (Migrate.ensure c n) rest.
Proof. reflexivity. Qed.

Lemma exec_create (c : Migrate.catalog) (n : string) (needs : list string) :
  forallb (Migrate.mem c) needs = true ->
  Migrate.exec_script c [Migrate.Create n needs]
  = if Migrate.mem c n then Rejected (n ++ " already exists") else Resolved (Migrate.ensure c n).
Proof.
  intros H. cbn [Migrate.exec_script Migrate.exec_stmt]. unfold Migrate.ensure.
  destruct (Migrate.mem c n); [reflexivity|]. rewrite H. reflexivity.
Qed.

Lemma schema_names_nodup :
  NoDup ["sensors"; "sensor_readings"; "idx_sensors_status"; "idx_sensors_entity_id";
         "idx_sensor_readings_sensor_timestamp"; "idx_sensor_readings_timestamp";
         "update_updated_at_column"; "update_sensors_updated_at"].
Proof. repeat constructor; cbn [In]; intuition discriminate. Qed.

Ltac needs_met :=
  cbn [forallb]; rewrite ?andb_true_r;
  repeat (apply andb_true_intro; split);
  repeat first [apply mem_ensure_self | apply mem_ensure_mono].

(** X10: the migration's statements add to the catalog, in order, those
    of the two tables, four indexes, the trigger function and the trigger
    that it lacks; since CREATE TRIGGER has no IF NOT EXISTS, the migration
    fails, creating nothing, when the trigger exists.  [initializeDatabase]
    changes nothing when both tables exist and otherwise runs the
    migration. *)
Theorem initializeDatabase_outcome (c : Migrate.catalog) :
  Migrate.runMigrations c
  = (if Migrate.mem c "update_sensors_updated_at"
     then Rejected "update_sensors_updated_at already exists"
     else Resolved (c ++ filter (fun n => negb (Migrate.mem c n))
                          ["sensors"; "sensor_readings"; "idx_sensors_status";
                           "idx_sensors_entity_id"; "idx_sensor_readings_sensor_timestamp";
                           "idx_sensor_readings_timestamp"; "update_updated_at_column";
                           "update_sensors_updated_at"]))
  /\ Migrate.initializeDatabase c
     = if Migrate.mem c "sensors" && Migrate.mem c "sensor_readings"
       then Resolved c else Migrate.runMigrations c.
Proof.
  split.
  - unfold Migrate.runMigrations, Migrate.query, Migrate.migrationSQL, Migrate.initial_schema.
    rewrite exec_if_not_exists by reflexivity.
    do 5 (rewrite exec_if_not_exists by needs_met).
    rewrite exec_or_replace, exec_create by needs_met.
    repeat rewrite mem_ensure_other by reflexivity.
    destruct (Migrate.mem c "update_sensors_updated_at") eqn:E; [reflexivity|].
    rewrite <- fold_ensure by exact schema_names_nodup. reflexivity.
  - unfold Migrate.initializeDatabase, Migrate.checkTablesExist. cbn [bind]. reflexivity.
Qed.

(** ** The detail page's aggregation *)

Section MapFacts.
Context {K V : Type} (eqb : K -> K -> bool).
Hypothesis eqb_spec : forall a b, eqb a b = true <-> a = b.

Lemma eqb_false (a b : K) : eqb a b = false <-> a <> b.
Proof.
  rewrite <- eqb_spec. destruct (eqb a b); split; congruence.
Qed.

Lemma map_get_set (k k' : K) (v : V) (m : list (K * V)) :
  SensorDetail.map_get eqb k' (SensorDetail.map_set eqb k v m)
  = if eqb k k' then Some v else SensorDetail.map_get eqb k' m.
Proof.
  unfold SensorDetail.map_get.
  induction m as [|[k0 v0] m IH]; cbn [SensorDetail.map_set find fst].
  - destruct (eqb k k'); reflexivity.
  - destruct (eqb k0 k) eqn:E0; cbn [find fst].
    + apply eqb_spec in E0. subst k0. destruct (eqb k k'); reflexivity.
    + destruct (eqb k0 k') eqn:E1; [|exact IH].
      destruct (eqb k k') eqn:E2; [|reflexivity].
      apply eqb_spec in E1, E2. subst. apply eqb_false in E0. congruence.
Qed.

Lemma map_set_keys (k k' : K) (v : V) (m : list (K * V)) :
  In k' (map fst (SensorDetail.map_set eqb k v m)) <-> k' = k \/ In k' (map fst m).
Proof.
  induction m as [|[k0 v0] m IH]; simpl; [intuition congruence|].
  destruct (eqb k0 k) eqn:E0; simpl.
  - apply eqb_spec in E0. subst. intuition congruence.
  - rewrite IH. intuition congruence.
Qed.

Lemma map_set_nodup (k : K) (v : V) (m : list (K * V)) :
  NoDup (map fst m) -> NoDup (map fst (SensorDetail.map_set eqb k v m)).
Proof.
  induction m as [|[k0 v0] m IH]; simpl; intros Hnd.
  - repeat constructor; simpl; tauto.
  - inversion Hnd as [|? ? Hn Hnd']; subst.
    destruct (eqb k0 k) eqn:E0; simpl; constructor; auto.
    rewrite map_set_keys. apply eqb_false in E0. intros [->|H]; auto.
Qed.

Lemma map_get_In (k : K) (v : V) (m : list (K * V)) :
  SensorDetail.map_get eqb k m = Some v -> In (k, v) m.
Proof.
  unfold SensorDetail.map_get. destruct (find _ m) as [[k0 v0]|] eqn:Hf; [|discriminate].
  intros [=<-]. apply find_some in Hf as [Hin He]. apply eqb_spec in He. simpl in He.
  subst. exact Hin.
Qed.

Lemma In_map_get (k : K) (v : V) (m : list (K * V)) :
  NoDup (map fst m) -> In (k, v) m -> SensorDetail.map_get eqb k m = Some v.
Proof.
  unfold SensorDetail.map_get. induction m as [|[k0 v0] m IH]; simpl; [tauto|].
  intros Hnd Hin. inversion Hnd as [|? ? Hn Hnd']; subst.
  destruct (eqb k0 k) eqn:E0.
  - apply eqb_spec in E0. subst. destruct Hin as [[=->]|Hin]; [reflexivity|].
    exfalso. apply Hn. apply in_map_iff. exists (k, v). auto.
  - destruct Hin as [[=->->]|Hin].
    + apply eqb_false in E0. congruence.
    + auto.
Qed.

Lemma map_get_keys (k : K) (m : list (K * V)) :
  SensorDetail.map_get eqb k m = None <-> ~ In k (map fst m).
Proof.
  unfold SensorDetail.map_get. split.
  - destruct (find _ m) eqn:Hf; [discriminate|]. intros _ Hin.
    apply in_map_iff in Hin as ([k0 v0] & <- & Hin).
    apply (find_none _ _ Hf) in Hin. simpl in Hin. rewrite (proj2 (eqb_spec k0 k0) eq_refl) in Hin.
    discriminate.
  - intros Hn. destruct (find _ m) as [[k0 v0]|] eqn:Hf; [|reflexivity].
    apply find_some in Hf as [Hin He]. apply eqb_spec in He. simpl in He.
    exfalso. apply Hn, in_map_iff. exists (k0, v0). auto.
Qed.

End MapFacts.

Lemma last_some_snoc (l : list (option Z)) (x : option Z) :
  last_some (l ++ [x]) = match x with Some v => Some v | None => last_some l end.
Proof.
  induction l as [|y l IH]; simpl.
  - destruct x; reflexivity.
  - rewrite IH. destruct x; reflexivity.
Qed.

Lemma sensorTypeMap_get (allSensors : list Sensor.t) (ids : list string) (id : string) :
  SensorDetail.map_get String.eqb id (SensorDetail.sensorTypeMap allSensors ids)
  = if existsb (String.eqb id) ids
    then match find (fun s => String.eqb (Sensor.id s) id) allSensors with
         | Some s => Some (getSensorDataType (Sensor.friendlyName s))
         | None => None
         end
    else None.
Proof.
  unfold SensorDetail.sensorTypeMap.
  assert (G : forall m,
    SensorDetail.map_get String.eqb id
      (fold_left (fun m sensorId =>
         match find (fun s => String.eqb (Sensor.id s) sensorId) allSensors with
         | Some sensor =>
             SensorDetail.map_set String.eqb sensorId
               (getSensorDataType (Sensor.friendlyName sensor)) m
         | None => m
         end) ids m)
    = if existsb (String.eqb id) ids
      then match find (fun s => String.eqb (Sensor.id s) id) allSensors with
           | Some s => Some (getSensorDataType (Sensor.friendlyName s))
           | None => SensorDetail.map_get String.eqb id m
           end
      else SensorDetail.map_get String.eqb id m).
  { induction ids as [|x ids IH]; intros m; simpl; [reflexivity|].
    rewrite IH.
    destruct (String.eqb_spec id x) as [->|Hne]; simpl.
    - destruct (find _ allSensors) as [s|] eqn:Hf.
      + rewrite (map_get_set String.eqb String.eqb_eq), String.eqb_refl.
        destruct (existsb _ ids); reflexivity.
      + destruct (existsb _ ids); reflexivity.
    - destruct (find (fun s => String.eqb (Sensor.id s) x) allSensors) as [s|];
        [|reflexivity].
      rewrite (map_get_set String.eqb String.eqb_eq).
      destruct (String.eqb_spec x id); [congruence|reflexivity]. }
  rewrite G. destruct (existsb _ ids); [|reflexivity].
  destruct (find _ allSensors); reflexivity.
Qed.

Lemma type_is_kind (allSensors : list Sensor.t) (ids : list string) (k : DataType)
    (r : SensorReading.t) :
  SensorDetail.type_is k
    (SensorDetail.map_get String.eqb (SensorReading.sensorId r)
       (SensorDetail.sensorTypeMap allSensors ids))
  = kind_is k (reading_kind allSensors ids r).
Proof.
  rewrite sensorTypeMap_get. unfold reading_kind.
  destruct (existsb _ ids); [|reflexivity].
  destruct (find _ allSensors); reflexivity.
Qed.

Section AggregateFacts.
Variable types : list (string * option DataType).

Let fv (k : DataType) (proj : SensorReading.t -> option Z) (r : SensorReading.t) : option Z :=
  if SensorDetail.type_is k (SensorDetail.map_get String.eqb (SensorReading.sensorId r) types)
  then proj r else None.

Let in_second (k : Z) (r : SensorReading.t) : bool :=
  Z.eqb (SensorDetail.round_second (SensorReading.timestamp r)) k.

Let agg_ok (prefix : list SensorReading.t) (k : Z) (a : AggregatedReading.t) : Prop :=
  AggregatedReading.timestamp a = k
  /\ AggregatedReading.temperature a
     = last_some (map (fv DTtemperature SensorReading.temperature) (filter (in_second k) prefix))
  /\ AggregatedReading.humidity a
     = last_some (map (fv DThumidity SensorReading.humidity) (filter (in_second k) prefix))
  /\ AggregatedReading.battery a
     = last_some (map (fv DTbattery SensorReading.humidity) (filter (in_second k) prefix)).

Lemma filter_in_second_snoc (prefix : list SensorReading.t) (r : SensorReading.t) (k : Z) :
  filter (in_second k) (prefix ++ [r])
  = if in_second k r then filter (in_second k) prefix ++ [r] else filter (in_second k) prefix.
Proof.
  rewrite filter_app. simpl. destruct (in_second k r); [reflexivity|apply app_nil_r].
Qed.

Lemma agg_step_common (prefix : list SensorReading.t) (r : SensorReading.t)
    (m m' : list (Z * AggregatedReading.t)) (a' : AggregatedReading.t) :
  let k := SensorDetail.round_second (SensorReading.timestamp r) in
  (forall x, In x (map fst m)
             <-> exists r, In r prefix /\ SensorDetail.round_second (SensorReading.timestamp r) = x) ->
  (forall x a, SensorDetail.map_get Z.eqb x m = Some a -> agg_ok prefix x a) ->
  NoDup (map fst m') ->
  (forall x, In x (map fst m') <-> x = k \/ In x (map fst m)) ->
  (forall x, SensorDetail.map_get Z.eqb x m'
             = if Z.eqb k x then Some a' else SensorDetail.map_get Z.eqb x m) ->
  agg_ok (prefix ++ [r]) k a' ->
  NoDup (map fst m')
  /\ (forall x, In x (map fst m')
                <-> exists r0, In r0 (prefix ++ [r])
                               /\ SensorDetail.round_second (SensorReading.timestamp r0) = x)
  /\ (forall x a, SensorDetail.map_get Z.eqb x m' = Some a -> agg_ok (prefix ++ [r]) x a).
Proof.
  intros k Hkeys Hok Hnd' Hkeys' Hget Ha'. split; [exact Hnd'|]. split.
  - intros x. rewrite Hkeys', Hkeys. split.
    + intros [->|(r0 & Hr0 & He)].
      * exists r. split; [apply in_or_app; right; left; reflexivity | reflexivity].
      * exists r0. split; [apply in_or_app; left; exact Hr0 | exact He].
    + intros (r0 & Hr0 & He). apply in_app_or in Hr0 as [Hr0|[<-|[]]].
      * right. exists r0. auto.
      * left. symmetry. exact He.
  - intros x a Hx. rewrite Hget in Hx. destruct (Z.eqb_spec k x) as [<-|Hne].
    + injection Hx as <-. exact Ha'.
    + destruct (Hok x a Hx) as (H0 & H1 & H2 & H3).
      assert (Hf : filter (in_second x) (prefix ++ [r]) = filter (in_second x) prefix).
      { rewrite filter_in_second_snoc.
        replace (in_second x r) with false; [reflexivity|].
        symmetry. apply Z.eqb_neq. exact Hne. }
      unfold agg_ok. rewrite Hf. auto.
Qed.

Ltac finish_ok :=
  match goal with
  | Hb : _ /\ _ /\ _ /\ _, Hbase : agg_ok _ _ _ |- agg_ok (?p ++ [?r]) ?k ?b =>
      unfold agg_ok in *; rewrite filter_in_second_snoc;
      replace (in_second k r) with true by (symmetry; apply Z.eqb_refl);
      rewrite !map_app; cbn [map]; rewrite !last_some_snoc;
      destruct Hb as (E0 & E1 & E2 & E3); destruct Hbase as (B0 & B1 & B2 & B3);
      rewrite E0, E1, E2, E3, B0, B1, B2, B3; repeat split
  end.

Lemma agg_inv (prefix : list SensorReading.t) :
  let m := fold_left (SensorDetail.aggregate_step types) prefix [] in
  NoDup (map fst m)
  /\ (forall k, In k (map fst m)
                <-> exists r, In r prefix /\ SensorDetail.round_second (SensorReading.timestamp r) = k)
  /\ (forall k a, SensorDetail.map_get Z.eqb k m = Some a -> agg_ok prefix k a).
Proof.
  induction prefix as [|r prefix IH] using rev_ind; intros m.
  - subst m. simpl. split; [constructor|]. split.
    + intros k. split; [intros []|intros (r & [] & _)].
    + intros k a H. discriminate H.
  - subst m. rewrite fold_left_app. cbn [fold_left].
    destruct IH as (Hnd & Hkeys & Hok).
    set (m := fold_left (SensorDetail.aggregate_step types) prefix []) in *.
    unfold SensorDetail.aggregate_step.
    set (k := SensorDetail.round_second (SensorReading.timestamp r)).
    set (st := SensorDetail.map_get String.eqb (SensorReading.sensorId r) types).
    assert (Hold : forall x, SensorDetail.map_get Z.eqb k m = None -> in_second k x = true ->
                             ~ In x prefix).
    { intros x Hn Hx Hin. apply (map_get_keys Z.eqb Z.eqb_eq) in Hn. apply Hn, Hkeys.
      exists x. split; [exact Hin|]. apply Z.eqb_eq, Hx. }
    destruct (SensorDetail.map_get Z.eqb k m) as [a|] eqn:Hg; cbv beta iota zeta;
    [|set (a := AggregatedReading.mk k None None None)];
    lazymatch goal with
    | |- context [SensorDetail.map_set _ k (if ?c then ?x else ?y) _] =>
        set (b := if c then x else y)
    end;
    (assert (Hb : AggregatedReading.timestamp b = AggregatedReading.timestamp a
       /\ AggregatedReading.temperature b
          = match fv DTtemperature SensorReading.temperature r with
            | Some v => Some v | None => AggregatedReading.temperature a end
       /\ AggregatedReading.humidity b
          = match fv DThumidity SensorReading.humidity r with
            | Some v => Some v | None => AggregatedReading.humidity a end
       /\ AggregatedReading.battery b
          = match fv DTbattery SensorReading.humidity r with
            | Some v => Some v | None => AggregatedReading.battery a end)
     by (unfold b, fv; fold st; destruct st as [[[]|]|];
         destruct (SensorReading.temperature r), (SensorReading.humidity r);
         repeat split)).
    + apply (agg_step_common prefix r m _ b Hkeys Hok).
      * apply map_set_nodup; [exact Z.eqb_eq | exact Hnd].
      * intros x. apply map_set_keys, Z.eqb_eq.
      * intros x. apply map_get_set, Z.eqb_eq.
      * pose proof (Hok k a Hg) as Hbase. finish_ok.
    + apply (agg_step_common prefix r m _ b Hkeys Hok).
      * apply map_set_nodup; [exact Z.eqb_eq|]. apply map_set_nodup; [exact Z.eqb_eq | exact Hnd].
      * intros x. rewrite (map_set_keys Z.eqb Z.eqb_eq), (map_set_keys Z.eqb Z.eqb_eq). tauto.
      * intros x. rewrite (map_get_set Z.eqb Z.eqb_eq), (map_get_set Z.eqb Z.eqb_eq).
        unfold k. destruct (Z.eqb _ x); reflexivity.
      * assert (Hnil : filter (in_second k) prefix = []).
        { destruct (filter (in_second k) prefix) as [|x l] eqn:Hf; [reflexivity|]. exfalso.
          assert (Hx : In x (filter (in_second k) prefix)) by (rewrite Hf; left; reflexivity).
          apply filter_In in Hx as [H1 H2]. exact (Hold x eq_refl H2 H1). }
        assert (Hbase : agg_ok prefix k a) by (unfold agg_ok; rewrite Hnil; repeat split).
        finish_ok.
Qed.

End AggregateFacts.

Lemma insert_ts_perm (x : AggregatedReading.t) (l : list AggregatedReading.t) :
  Permutation (x :: l) (SensorDetail.insert_ts x l).
Proof.
  induction l as [|y l IH]; simpl; [reflexivity|].
  destruct (_ <=? _)%Z; [reflexivity|].
  rewrite perm_swap. constructor. exact IH.
Qed.

Lemma insert_ts_sorted (x : AggregatedReading.t) (l : list AggregatedReading.t) :
  Sorted (fun a b => (AggregatedReading.timestamp a <= AggregatedReading.timestamp b)%Z) l ->
  Sorted (fun a b => (AggregatedReading.timestamp a <= AggregatedReading.timestamp b)%Z)
    (SensorDetail.insert_ts x l).
Proof.
  induction 1 as [|y l Hl IH Hhd]; simpl.
  - repeat constructor.
  - destruct (Z.leb_spec (AggregatedReading.timestamp x) (AggregatedReading.timestamp y)).
    + constructor; [constructor; [exact Hl | exact Hhd] | constructor; exact H].
    + constructor; [exact IH|].
      destruct l as [|z l]; simpl.
      * constructor. lia.
      * inversion Hhd; subst.
        destruct (_ <=? _)%Z; constructor; lia.
Qed.

Lemma sort_by_timestamp_spec (l : list AggregatedReading.t) :
  Permutation l (SensorDetail.sort_by_timestamp l)
  /\ Sorted (fun a b => (AggregatedReading.timestamp a <= AggregatedReading.timestamp b)%Z)
       (SensorDetail.sort_by_timestamp l).
Proof.
  unfold SensorDetail.sort_by_timestamp.
  induction l as [|x l [IHp IHs]]; simpl; [split; constructor|].
  split.
  - rewrite <- insert_ts_perm. constructor. exact IHp.
  - apply insert_ts_sorted, IHs.
Qed.

Lemma sorted_strict (l : list AggregatedReading.t) :
  Sorted (fun a b => (AggregatedReading.timestamp a <= AggregatedReading.timestamp b)%Z) l ->
  NoDup (map AggregatedReading.timestamp l) ->
  Sorted (fun a b => (AggregatedReading.timestamp a < AggregatedReading.timestamp b)%Z) l.
Proof.
  induction 1 as [|x l Hl IH Hhd]; intros Hnd; constructor.
  - inversion Hnd; auto.
  - inversion Hnd as [|? ? Hn _]; subst.
    destruct Hhd as [|y l' Hxy]; constructor.
    assert (AggregatedReading.timestamp x <> AggregatedReading.timestamp y)
      by (intros He; apply Hn; rewrite He; left; reflexivity).
    lia.
Qed.

Lemma aggregate_entries (types : list (string * option DataType)) (hist : list SensorReading.t)
    (p : AggregatedReading.t) :
  In p (SensorDetail.aggregateReadings types hist) ->
  exists k, In (k, p) (fold_left (SensorDetail.aggregate_step types) hist [])
            /\ SensorDetail.map_get Z.eqb k (fold_left (SensorDetail.aggregate_step types) hist [])
               = Some p.
Proof.
  intros Hp. destruct (agg_inv types hist) as (Hnd & _ & _).
  unfold SensorDetail.aggregateReadings in Hp.
  destruct (sort_by_timestamp_spec
              (map snd (fold_left (SensorDetail.aggregate_step types) hist []))) as [Hperm _].
  apply (Permutation_in _ (Permutation_sym Hperm)) in Hp.
  apply in_map_iff in Hp as ([k p'] & Hp' & Hin). simpl in Hp'. subst p'.
  exists k. split; [exact Hin|]. apply In_map_get; [exact Z.eqb_eq | exact Hnd | exact Hin].
Qed.

(** X11: the detail page's chart data has one point per second: the points
    are in strictly increasing time order, each point's time is the second
    (rounded down) of some reading, and the second of every reading has a
    point. *)
Theorem aggregateReadings_one_point_per_second (types : list (string * option DataType))
    (hist : list SensorReading.t) :
  let out := SensorDetail.aggregateReadings types hist in
  Sorted (fun a b => (AggregatedReading.timestamp a < AggregatedReading.timestamp b)%Z) out
  /\ (forall p, In p out ->
        exists r, In r hist
                  /\ SensorDetail.round_second (SensorReading.timestamp r)
                     = AggregatedReading.timestamp p)
  /\ (forall r, In r hist ->
        exists p, In p out
                  /\ AggregatedReading.timestamp p
                     = SensorDetail.round_second (SensorReading.timestamp r)).
Proof.
  intros out. destruct (agg_inv types hist) as (Hnd & Hkeys & Hok).
  set (m := fold_left (SensorDetail.aggregate_step types) hist []) in *.
  destruct (sort_by_timestamp_spec (map snd m)) as [Hperm Hs].
  assert (Hts : forall k a, In (k, a) m -> AggregatedReading.timestamp a = k).
  { intros k a Hin. apply (In_map_get Z.eqb Z.eqb_eq) in Hin; [|exact Hnd].
    apply Hok in Hin. apply Hin. }
  split; [|split].
  - apply sorted_strict; [exact Hs|].
    apply (Permutation_NoDup (Permutation_map _ Hperm)).
    rewrite map_map.
    replace (map (fun x => AggregatedReading.timestamp (snd x)) m) with (map fst m);
      [exact Hnd|].
    apply map_ext_in. intros [k a] Hin. simpl. symmetry. apply Hts, Hin.
  - intros p Hp. destruct (aggregate_entries types hist p Hp) as (k & Hin & _).
    rewrite (Hts k p Hin). apply Hkeys. apply in_map_iff. exists (k, p). auto.
  - intros r Hr.
    assert (Hk : In (SensorDetail.round_second (SensorReading.timestamp r)) (map fst m))
      by (apply Hkeys; exists r; auto).
    apply in_map_iff in Hk as ([k a] & Hk & Hin). simpl in Hk. subst k.
    exists a. split.
    + apply (Permutation_in _ Hperm). apply in_map_iff.
      exists (SensorDetail.round_second (SensorReading.timestamp r), a). auto.
    + apply Hts, Hin.
Qed.

(** X12: each point of the detail page's chart holds, for each kind, the
    value of the last reading of that second from a sensor of that kind:
    the last present temperature of the temperature sensors, the last
    present humidity of the humidity sensors, and as battery level the last
    present humidity field of the battery sensors; a sensor's kind comes
    from the friendly name of the first sensor with its id, for the ids of
    the group. *)
Theorem aggregateReadings_last_value_per_kind (allSensors : list Sensor.t) (ids : list string)
    (hist : list SensorReading.t) (p : AggregatedReading.t) :
  In p (SensorDetail.aggregateReadings (SensorDetail.sensorTypeMap allSensors ids) hist) ->
  let same_second :=
    filter (fun r => Z.eqb (SensorDetail.round_second (SensorReading.timestamp r))
                       (AggregatedReading.timestamp p)) hist in
  AggregatedReading.temperature p
  = last_some (map (fun r => if kind_is DTtemperature (reading_kind allSensors ids r)
                             then SensorReading.temperature r else None) same_second)
  /\ AggregatedReading.humidity p
     = last_some (map (fun r => if kind_is DThumidity (reading_kind allSensors ids r)
                                then SensorReading.humidity r else None) same_second)
  /\ AggregatedReading.battery p
     = last_some (map (fun r => if kind_is DTbattery (reading_kind allSensors ids r)
                                then SensorReading.humidity r else None) same_second).
Proof.
  intros Hp same_second.
  set (types := SensorDetail.sensorTypeMap allSensors ids) in *.
  destruct (aggregate_entries types hist p Hp) as (k & _ & Hg).
  destruct (agg_inv types hist) as (_ & _ & Hok).
  destruct (Hok k p Hg) as (H0 & H1 & H2 & H3).
  subst same_second. rewrite H0, H1, H2, H3.
  split; [|split]; f_equal; apply map_ext; intros r; unfold types; rewrite type_is_kind;
    reflexivity.
Qed.

(** ** The detail page's loader *)

Lemma fetch_history_resolved (fetch : string -> Promise (list SensorReading.t))
    (ids : list string) :
  forall acc hist, SensorDetail.fetch_history fetch ids acc = Resolved hist ->
  exists parts, Forall2 (fun id rs => fetch id = Resolved rs) ids parts
                /\ hist = acc ++ concat parts.
Proof.
  induction ids as [|id ids IH]; intros acc hist H; simpl in H.
  - injection H as <-. exists []. split; [constructor | symmetry; apply app_nil_r].
  - destruct (fetch id) as [rs|e] eqn:Hf; simpl in H; [|discriminate].
    destruct (IH _ _ H) as (parts & Hp & ->).
    exists (rs :: parts). split; [constructor; assumption|].
    simpl. rewrite app_assoc. reflexivity.
Qed.

Lemma fetch_history_rejected (fetch : string -> Promise (list SensorReading.t))
    (ids : list string) :
  forall acc e, SensorDetail.fetch_history fetch ids acc = Rejected e ->
  exists id, In id ids /\ fetch id = Rejected e.
Proof.
  induction ids as [|id ids IH]; intros acc e H; simpl in H; [discriminate|].
  destruct (fetch id) as [rs|e'] eqn:Hf; simpl in H.
  - destruct (IH _ _ H) as (id' & Hin & He). exists id'. split; [right|]; assumption.
  - injection H as <-. exists id. split; [left; reflexivity | exact Hf].
Qed.

(** X13: what the detail page's loader can end in.  A malformed location
    parameter throws.  The only Response it throws is the 404 "Sensor not
    found", when the decoded location is no group's location.  A load error
    is an error of one of its queries, returned with the location.  A
    loaded page shows a group of that location among all groups, the
    locations of all groups, and the aggregation of the readings of the
    group's sensors, fetched sensor by sensor in the group's order. *)
Theorem detail_loader_outcomes (localeCompare : string -> string -> Z)
    (decode : string -> option string) (getAllSensors : Promise (list Sensor.t))
    (getAllLatestReadings : Promise LatestReadings)
    (getReadingsByTimeRange : string -> Promise (list SensorReading.t)) (param : string) :
  match SensorDetail.loader localeCompare decode getAllSensors getAllLatestReadings
          getReadingsByTimeRange param with
  | SensorDetail.Throws _ => decode param = None
  | SensorDetail.ThrowsResponse status body =>
      status = 404%Z /\ body = "Sensor not found"
      /\ exists loc sensors latest,
           decode param = Some loc /\ getAllSensors = Resolved sensors
           /\ getAllLatestReadings = Resolved latest
           /\ ~ In loc (map SensorGroup.location
                          (groupSensorsByLocation localeCompare sensors latest))
  | SensorDetail.Returns (SensorDetail.LoadFailed loc e) =>
      decode param = Some loc
      /\ (getAllSensors = Rejected e \/ getAllLatestReadings = Rejected e
          \/ exists id, getReadingsByTimeRange id = Rejected e)
  | SensorDetail.Returns (SensorDetail.Loaded loc group locations points) =>
      decode param = Some loc
      /\ exists sensors latest parts,
           getAllSensors = Resolved sensors /\ getAllLatestReadings = Resolved latest
           /\ let groups := groupSensorsByLocation localeCompare sensors latest in
              In group groups /\ SensorGroup.location group = loc
              /\ locations = map SensorGroup.location groups
              /\ Forall2 (fun id rs => getReadingsByTimeRange id = Resolved rs)
                   (SensorGroup.sensorIds group) parts
              /\ points = SensorDetail.aggregateReadings
                            (SensorDetail.sensorTypeMap sensors (SensorGroup.sensorIds group))
                            (concat parts)
  end.
Proof.
  unfold SensorDetail.loader. destruct (decode param) as [loc|] eqn:Hd; [|reflexivity].
  unfold SensorDetail.loader_body.
  destruct getAllSensors as [sensors|e] eqn:Hs; cbn [bind];
    [|split; [reflexivity | left; reflexivity]].
  destruct getAllLatestReadings as [latest|e] eqn:Hl; cbn [bind];
    [|split; [reflexivity | right; left; reflexivity]].
  destruct (find (fun g => String.eqb (SensorGroup.location g) loc)
              (groupSensorsByLocation localeCompare sensors latest)) as [g|] eqn:Hf.
  - destruct (SensorDetail.fetch_history getReadingsByTimeRange (SensorGroup.sensorIds g) [])
      as [hist|e] eqn:Hh; cbn [bind].
    + apply find_some in Hf as [Hin Hloc]. apply String.eqb_eq in Hloc.
      destruct (fetch_history_resolved _ _ _ _ Hh) as (parts & Hp & Hhist).
      split; [reflexivity|]. exists sensors, latest, parts.
      repeat split; auto. rewrite Hhist. reflexivity.
    + split; [reflexivity|]. right; right.
      destruct (fetch_history_rejected _ _ _ _ Hh) as (id & _ & He). exists id. exact He.
  - repeat split. exists loc, sensors, latest. repeat split.
    intros Hin. apply in_map_iff in Hin as (g & Hg & Hin).
    apply (find_none _ _ Hf) in Hin. rewrite Hg, String.eqb_refl in Hin. discriminate.
Qed.


(** ** Witnesses *)

Lemma discoverSensors_ids_distinct_witness :
  NoDup (map HomeAssistantState.entity_id example_states)
  /\ SensorDiscovery.discoverSensors (Resolved example_states) (fun _ => 0%Z)
     = Resolved example_discovered
  /\ List.length example_discovered = 2
  /\ NoDup (map Sensor.id example_discovered).
Proof.
  assert (Hnd : NoDup (map HomeAssistantState.entity_id example_states)).
  { vm_compute. repeat constructor; simpl; intros H;
      repeat destruct H as [H|H]; try discriminate; contradiction. }
  assert (Hd : SensorDiscovery.discoverSensors (Resolved example_states) (fun _ => 0%Z)
               = Resolved example_discovered) by (vm_compute; reflexivity).
  split; [exact Hnd|]. split; [exact Hd|]. split; [vm_compute; reflexivity|].
  exact (discoverSensors_ids_distinct example_states (fun _ => 0%Z) example_discovered Hnd Hd).
Defined.

Lemma upsertSensor_then_getSensorById_witness :
  SensorRepository.fits ikea_sensor = true
  /\ SensorRepository.text_ok ikea_sensor = true
  /\ SensorRepository.utc_timestamptz_ok (Sensor.lastSeen ikea_sensor) = true
  /\ exists db', SensorRepository.upsertSensor SensorRepository.utc_timestamptz_ok 7 ikea_sensor
                   example_db = Resolved db'
                 /\ SensorRepository.getSensorById "ikea_dimmer" db' = Resolved (Some ikea_sensor)
                 /\ SensorRepository.getSensorById "buero_temp" db'
                    = Resolved (Some (buero_temp_sensor 10 online)).
Proof.
  assert (Hfit : SensorRepository.fits ikea_sensor = true) by (vm_compute; reflexivity).
  assert (Hfree : forall r, In r (sensor_rows example_db) ->
            Sensor.entityId (SensorRow.sensor r) = Sensor.entityId ikea_sensor ->
            SensorRepository.row_id r = Sensor.id ikea_sensor).
  { intros r [<-|[]] He. vm_compute in He. discriminate. }
  assert (Ht : SensorRepository.text_ok ikea_sensor = true) by (vm_compute; reflexivity).
  assert (Hok : SensorRepository.utc_timestamptz_ok (Sensor.lastSeen ikea_sensor) = true)
    by (vm_compute; reflexivity).
  split; [exact Hfit|]. split; [exact Ht|]. split; [exact Hok|].
  destruct (upsertSensor_then_getSensorById SensorRepository.utc_timestamptz_ok 7 ikea_sensor
              example_db Hfit Ht Hok Hfree)
    as (db' & Hu & Hg & Ho & _ & _).
  exists db'. split; [exact Hu|]. split; [exact Hg|].
  rewrite (Ho "buero_temp") by (vm_compute; discriminate). vm_compute. reflexivity.
Defined.

Lemma discoverAndStoreSensors_outcome_witness :
  NoDup (map (fun s => take 255 (Sensor.id s)) example_sensors)
  /\ reading_rows (fst (discoverAndStoreSensors SensorRepository.utc_timestamptz_ok
                          (Resolved example_sensors) (fun _ => 7%Z) example_db))
     = reading_rows example_db.
Proof.
  assert (Hnd : NoDup (map (fun s => take 255 (Sensor.id s)) example_sensors)).
  { vm_compute. repeat constructor; simpl; intros H;
      repeat destruct H as [H|H]; try discriminate; contradiction. }
  split; [exact Hnd|].
  pose proof (discoverAndStoreSensors_outcome SensorRepository.utc_timestamptz_ok example_sensors
                (fun _ => 7%Z) example_db Hnd) as H.
  destruct (discoverAndStoreSensors SensorRepository.utc_timestamptz_ok (Resolved example_sensors)
              (fun _ => 7%Z) example_db) as [db' res].
  exact (proj1 H).
Defined.

Lemma insertReadingsBatch_placeholders_bind_readings_witness :
  example_batch <> []
  /\ ReadingRepository.values_rows (ReadingRepository.batch_placeholders example_batch)
       (ReadingRepository.batch_values example_batch) = Some example_batch.
Proof.
  assert (Hne : example_batch <> []) by discriminate.
  split; [exact Hne|].
  rewrite (proj1 (insertReadingsBatch_placeholders_bind_readings example_batch Hne)).
  vm_compute. reflexivity.
Defined.

Lemma repositories_keep_db_consistent_witness :
  db_consistent example_db
  /\ exists db', ReadingRepository.insertReadingsBatch example_batch example_db = Resolved db'
                 /\ List.length (reading_rows db') = 3
                 /\ db_consistent db'.
Proof.
  assert (Hc : db_consistent example_db).
  { split; vm_compute; repeat constructor; intros []. }
  split; [exact Hc|].
  destruct (repositories_keep_db_consistent example_db Hc) as (_ & _ & _ & _ & Hb & _).
  eexists. split; [vm_compute; reflexivity|]. split; [reflexivity|].
  apply (Hb example_batch). vm_compute. reflexivity.
Defined.

Lemma aggregateReadings_last_value_per_kind_witness :
  In (hd (AggregatedReading.mk 0 None None None) example_points) example_points
  /\ AggregatedReading.temperature (hd (AggregatedReading.mk 0 None None None) example_points)
     = Some 221%Z
  /\ AggregatedReading.humidity (hd (AggregatedReading.mk 0 None None None) example_points)
     = Some 526%Z.
Proof.
  assert (Hin : In (hd (AggregatedReading.mk 0 None None None) example_points) example_points)
    by (vm_compute; left; reflexivity).
  split; [exact Hin|].
  destruct (aggregateReadings_last_value_per_kind example_sensors ["buero_temp"; "buero_hum"]
              example_history _ Hin) as (Ht & Hh & _).
  rewrite Ht, Hh. vm_compute. split; reflexivity.
Defined.
